(** * empanada-napari: finetuning driver and parameter-testing widget

    A shallow embedding of [empanada_napari/finetune.py] (layer-freeze
    policy, weight-decay partitioner, driver control flow) and of the engine
    cache of [empanada_napari/_slice_inference.py], with the properties of
    the specification stated and settled against it. *)

From Stdlib Require Import ZArith QArith Bool Ascii String.
From stdpp Require Import base tactics option list sorting strings gmap fin_maps fin_sets.
From stdpp Require Import pretty.

Local Open Scope string_scope.
Local Open Scope list_scope.
Local Open Scope Z_scope.
Local Open Scope stdpp_scope.

(* ===================================================================== *)
(** * Part I: definitions                                                 *)
(* ===================================================================== *)

(** ** Python strings *)

(** [s.endswith(suf)]: [suf] is one of the tails of [s]. *)
Fixpoint endswith (s suf : string) : bool :=
  String.eqb s suf ||
  match s with
  | EmptyString => false
  | String _ s' => endswith s' suf
  end.

(** [sub in s]: [sub] is a prefix of one of the tails of [s]. *)
Fixpoint contains (sub s : string) : bool :=
  String.prefix sub s ||
  match s with
  | EmptyString => false
  | String _ s' => contains sub s'
  end.

(** [name in names] for a list of names. *)
Definition name_in (x : string) (l : list string) : bool := bool_decide (x ∈ l).

(** The character ['.'] and the test that a name has none. *)
Definition dot : ascii := "."%char.

Fixpoint dotfree (s : string) : bool :=
  match s with
  | EmptyString => true
  | String c s' => negb (Ascii.eqb c dot) && dotfree s'
  end.

(** [prefix + ('.' if prefix else '') + name], the way torch builds the path
    of a submodule or of a parameter; in [configure_optimizer] the same
    string is written ['%s.%s' % (mn, pn) if mn else pn]. *)
Definition join_path (prefix name : string) : string :=
  match prefix with
  | EmptyString => name
  | _ => prefix +:+ "." +:+ name
  end.

(** ** Exceptions and results *)

Inductive exn : Type :=
  | AssertionError (msg : string)
  | KeyError (key : string)
  | NameError (name : string)
  | AttributeError (msg : string)
  | ZeroDivisionError
  | Exception (msg : string).

Inductive result (A : Type) : Type :=
  | Ok (a : A)
  | Raise (e : exn).
Arguments Ok {A} a.
Arguments Raise {A} e.

Definition rbind {A B} (r : result A) (k : A → result B) : result B :=
  match r with
  | Ok a => k a
  | Raise e => Raise e
  end.

(** ** Module trees (torch.nn.Module as the driver uses it) *)

(** The classes a module of the tree can be an instance of.  Only
    [BatchNorm2d] is on the partitioner's blacklist. *)
Inductive ModuleClass : Type :=
  | Conv2d | ConvTranspose2d | Linear | MultiheadAttention
  | BatchNorm1d | BatchNorm2d | GroupNorm | LayerNorm
  | Container.

(** A parameter tensor: its element count and its [requires_grad] flag. *)
Record Param : Type := mkParam {
  numel : nat;
  requires_grad : bool
}.

(** A module owns named parameters ([_parameters]) and named children
    ([_modules]).  No module or parameter object is shared between two
    places of the tree. *)
#[warnings="-register-all"] Inductive NnModule : Type := mkModule {
  m_class : ModuleClass;
  _parameters : list (string * Param);
  _modules : list (string * NnModule)
}.

(** [isinstance(m, blacklist)] with [blacklist = (torch.nn.BatchNorm2d,)]. *)
Definition isinstance_blacklist (m : NnModule) : bool :=
  match m_class m with
  | BatchNorm2d => true
  | _ => false
  end.

(** [module.named_modules(prefix)]: the module itself, then its children
    depth first, each under its dotted path. *)
Fixpoint named_modules_from (prefix : string) (m : NnModule) : list (string * NnModule) :=
  (prefix, m) ::
  flat_map (λ nc, named_modules_from (join_path prefix (fst nc)) (snd nc)) (_modules m).

Definition named_modules (m : NnModule) : list (string * NnModule) :=
  named_modules_from "" m.

(** [m.named_parameters(recurse=False)]. *)
Definition named_parameters_own (m : NnModule) : list (string * Param) :=
  _parameters m.

(** [module.named_parameters(prefix)]: for every module of [named_modules],
    its own parameters under [module_path + '.' + name]. *)
Definition named_parameters_from (prefix : string) (m : NnModule)
    : list (string * Param) :=
  flat_map (λ mm, map (λ kv, (join_path (fst mm) (fst kv), snd kv))
                      (named_parameters_own (snd mm)))
           (named_modules_from prefix m).

(** [model.named_parameters()]. *)
Definition named_parameters (model : NnModule) : list (string * Param) :=
  named_parameters_from "" model.

(** The paths of [named_parameters_from]. *)
Definition names_from (prefix : string) (m : NnModule) : list string :=
  map fst (named_parameters_from prefix m).

(** [model.parameters()]. *)
Definition parameters (model : NnModule) : list Param :=
  map snd (named_parameters model).

(** The loop [for pname, param in model.named_parameters(): param = f pname param]
    as an update of the tree in place: every parameter is rewritten under
    its own dotted path. *)
Fixpoint map_params_from (f : string → Param → Param) (prefix : string)
    (m : NnModule) : NnModule :=
  mkModule (m_class m)
    (map (λ kv, (fst kv, f (join_path prefix (fst kv)) (snd kv))) (_parameters m))
    (map (λ nc, (fst nc, map_params_from f (join_path prefix (fst nc)) (snd nc)))
         (_modules m)).

(** [for pname, param in model.named_parameters():
       if cond(pname): param.requires_grad = v] *)
Definition set_flag (cond : string → bool) (v : bool) (pname : string) (p : Param)
    : Param :=
  if cond pname then mkParam (numel p) v else p.

Definition set_requires_grad (cond : string → bool) (v : bool) (model : NnModule)
    : NnModule :=
  map_params_from (set_flag cond v) "" model.

(** The tree is well formed when, in every module, the parameter names are
    distinct, the child names are distinct, and no name is empty or has a
    dot: what [register_parameter] and [add_module] enforce, and what
    [_parameters] and [_modules] being dictionaries gives. *)
Definition wf_name (s : string) : bool :=
  negb (String.eqb s "") && dotfree s.

Fixpoint wf_module (m : NnModule) : bool :=
  bool_decide (NoDup (map fst (_parameters m))) &&
  forallb (λ kv, wf_name (fst kv)) (_parameters m) &&
  bool_decide (NoDup (map fst (_modules m))) &&
  forallb (λ nc, wf_name (fst nc) && wf_module (snd nc)) (_modules m).

(** ** Layer-freeze policy ([main_worker], lines 64-87) *)

Definition valid_layers : list string := ["stage1"; "stage2"; "stage3"; "stage4"].

(** [l[l.index(x):]]: the suffix of [l] that starts at the first [x]. *)
Fixpoint from_index (x : string) (l : list string) : list string :=
  match l with
  | [] => []
  | y :: l' => if String.eqb y x then l else from_index x l'
  end.

(** The freezing block of [main_worker].  The model is mutated in place, so
    the model is returned also when the assertion fails. *)
Definition freeze_encoder (finetune_layer : string) (model : NnModule)
    : NnModule * result unit :=
  (* start by freezing all encoder parameters *)
  let model := set_requires_grad (contains "encoder") false model in
  if String.eqb finetune_layer "none" then
    (model, Ok tt)
  else if String.eqb finetune_layer "all" then
    (set_requires_grad (contains "encoder") true model, Ok tt)
  else if name_in finetune_layer valid_layers then
    (foldl (λ mdl layer_name,
              set_requires_grad (contains ("encoder." +:+ layer_name)) true mdl)
           model (from_index finetune_layer valid_layers),
     Ok tt)
  else
    (model, Raise (AssertionError "")).

(** What the freezing block does to the one parameter of path [pname]: the
    same assignments in the same order. *)
Definition freeze_param (finetune_layer pname : string) (p : Param) : Param :=
  let p := set_flag (contains "encoder") false pname p in
  if String.eqb finetune_layer "none" then p
  else if String.eqb finetune_layer "all" then
    set_flag (contains "encoder") true pname p
  else if name_in finetune_layer valid_layers then
    foldl (λ p layer_name,
             set_flag (contains ("encoder." +:+ layer_name)) true pname p)
          p (from_index finetune_layer valid_layers)
  else p.

(** [T] is [S] or a later stage of the fixed order. *)
Definition stage_from (S T : string) : Prop :=
  ∃ i j : nat, valid_layers !! i = Some S ∧ valid_layers !! j = Some T ∧ (i ≤ j)%nat.

(** [sum(p[1].numel() for p in model.named_parameters() if p[1].requires_grad)] *)
Definition num_trainable (model : NnModule) : nat :=
  sum_list (map (λ np, if requires_grad (snd np) then numel (snd np) else 0%nat)
                (named_parameters model)).

(** ** Weight-decay partitioner ([configure_optimizer]) *)

(** Names that the namespaces of the libraries export, as the module-level
    lists of [finetune.py] collect them. *)
Record Registry : Type := mkRegistry {
  schedules : list string;
  optimizers : list string;
  augmentations : list string;
  datasets : list string;
  loss_names : list string
}.

(** A parameter group: the ["params"] entry and the other entries. *)
Record ParamGroup : Type := mkParamGroup {
  params : list Param;
  settings : gmap string Q
}.

Record Optimizer : Type := mkOptimizer {
  opt_class : string;
  param_groups : list ParamGroup;
  defaults : gmap string Q
}.

(** First argument of an optimizer constructor: an iterable of tensors or a
    list of parameter groups. *)
Inductive OptimArg : Type :=
  | Tensors (ps : list Param)
  | Groups (gs : list ParamGroup).

(** [optim.__dict__[opt_name](arg, **kwargs)], the constructor of the
    training framework: a flat iterable becomes one group; every group gets
    the keyword arguments for the keys it does not set itself. *)
Definition optim_construct (reg : Registry) (opt_name : string) (arg : OptimArg)
    (kwargs : gmap string Q) : result Optimizer :=
  if name_in opt_name (optimizers reg) then
    Ok (mkOptimizer opt_name
          match arg with
          | Tensors ps => [mkParamGroup ps kwargs]
          | Groups gs => map (λ g, mkParamGroup (params g) (settings g ∪ kwargs)) gs
          end
          kwargs)
  else Raise (KeyError opt_name).

(** One step of the inner loop: where [full_name] goes. *)
Definition classify (m : NnModule) (full_name : string)
    (sets : gset string * gset string) : gset string * gset string :=
  let '(decay, no_decay) := sets in
  if endswith full_name "bias" then
    (decay, no_decay ∪ {[full_name]})
  else if endswith full_name "weight" && isinstance_blacklist m then
    (decay, no_decay ∪ {[full_name]})
  else
    (decay ∪ {[full_name]}, no_decay).

(** The test of the first two branches: [full_name] is exempt from decay. *)
Definition exempt (m : NnModule) (full_name : string) : bool :=
  endswith full_name "bias" ||
  (endswith full_name "weight" && isinstance_blacklist m).

(** The pairs the two nested loops visit, in order: a path and the module
    that owns the parameter. *)
Definition owned (model : NnModule) : list (string * NnModule) :=
  flat_map (λ mm, map (λ kv, (join_path (fst mm) (fst kv), snd mm))
                      (named_parameters_own (snd mm)))
           (named_modules model).

(** The two nested loops over [model.named_modules()] and
    [m.named_parameters(recurse=False)]: the pair [(decay, no_decay)]. *)
Definition decay_sets (model : NnModule) : gset string * gset string :=
  foldl (λ sets mm,
           foldl (λ sets kv, classify (snd mm) (join_path (fst mm) (fst kv)) sets)
                 sets (named_parameters_own (snd mm)))
        (∅, ∅) (named_modules model).

(** [{pn: p for pn, p in model.named_parameters()}]: a later entry replaces
    an earlier one of the same name. *)
Definition param_dict (model : NnModule) : gmap string Param :=
  foldl (λ d np, <[fst np := snd np]> d) ∅ (named_parameters model).

(** [sorted(list(s))] on a set of strings. *)
Definition sorted (s : gset string) : list string :=
  merge_sort String.le (elements s).

(** [[param_dict[pn] for pn in names]] *)
Fixpoint lookup_all (d : gmap string Param) (names : list string)
    : result (list Param) :=
  match names with
  | [] => Ok []
  | pn :: rest =>
      match d !! pn with
      | None => Raise (KeyError pn)
      | Some p => rbind (lookup_all d rest) (λ ps, Ok (p :: ps))
      end
  end.

Definition configure_optimizer (reg : Registry) (model : NnModule)
    (opt_name : string) (opt_params : gmap string Q) : result Optimizer :=
  match opt_params !! "weight_decay" with
  | None => optim_construct reg opt_name (Tensors (parameters model)) opt_params
  | Some wd =>
      if Qeq_bool wd 0 then
        optim_construct reg opt_name (Tensors (parameters model)) opt_params
      else
        let '(decay, no_decay) := decay_sets model in
        let inter_params := decay ∩ no_decay in
        let union_params := decay ∪ no_decay in
        if negb (size inter_params =? 0)%nat then
          Raise (AssertionError "Overlapping decay and no decay")
        else if negb (size (dom (param_dict model) ∖ union_params) =? 0)%nat then
          Raise (AssertionError "Missing decay parameters")
        else
          rbind (lookup_all (param_dict model) (sorted decay)) (λ decay_params,
          rbind (lookup_all (param_dict model) (sorted no_decay)) (λ no_decay_params,
          let param_groups :=
            [ mkParamGroup decay_params opt_params;
              mkParamGroup no_decay_params (<["weight_decay" := 0%Q]> opt_params) ] in
          optim_construct reg opt_name (Groups param_groups) opt_params))
  end.

(** ** The finetuning driver ([main], [main_worker]) *)

(** [DATASET.norms]. *)
Record Norms : Type := mkNorms {
  norm_mean : Q;
  norm_std : Q
}.

(** The configuration keys the driver reads.  [TRAIN_augmentations] keeps
    the ['aug'] entry of every augmentation; [schedule_steps_per_epoch] and
    [schedule_epochs] are the entries of [TRAIN.schedule_params] that the
    driver looks at, [None] when the key is absent, and [TRAIN_epochs] is
    [TRAIN.epochs], [None] when absent. *)
Record Config : Type := mkConfig {
  config_name : string;
  DATASET_norms : Norms;
  TRAIN_model_dir : string;
  TRAIN_lr_schedule : string;
  TRAIN_optimizer : string;
  TRAIN_criterion : string;
  TRAIN_whole_pretraining : string;
  TRAIN_dataset_class : string;
  TRAIN_finetune_layer : string;
  TRAIN_augmentations : list string;
  TRAIN_train_dir : string;
  TRAIN_additional_train_dirs : option (list string);
  TRAIN_workers : Z;
  TRAIN_batch_size : Z;
  TRAIN_optimizer_params : gmap string Q;
  schedule_steps_per_epoch : option Z;
  schedule_epochs : option Z;
  TRAIN_epochs : option Z;
  TRAIN_amp : bool;
  TRAIN_save_freq : Z
}.

(** What the driver finds outside itself: the exported names, the file
    system, the model behind a URL and the length of the dataset of a
    directory. *)
Record World : Type := mkWorld {
  registry : Registry;
  isdir : string → bool;
  hub_load : string → NnModule;
  dataset_len : string → nat
}.

(** The arguments of the call [DataLoader(train_dataset, batch_size=...,
    shuffle=True, num_workers=..., drop_last=True)], the dataset by its
    length. *)
Record DataLoader : Type := mkDataLoader {
  dl_dataset_len : nat;
  dl_batch_size : Z;
  dl_shuffle : bool;
  num_workers : Z;
  dl_drop_last : bool
}.

(** [len(train_loader)]; the loader is always built with [drop_last=True]
    and a nonzero batch size. *)
Definition loader_len (dl : DataLoader) : Z :=
  Z.of_nat (dl_dataset_len dl) / dl_batch_size dl.

Record Scheduler : Type := mkScheduler {
  sched_class : string;
  sched_steps_per_epoch : option Z
}.

(** [GradScaler()] and its [state_dict()]. *)
Inductive GradScaler : Type := mkGradScaler.
Inductive ScalerState : Type := mkScalerState.
Definition scaler_state_dict (s : GradScaler) : ScalerState := mkScalerState.

(** The dictionary handed to [save_checkpoint]. *)
Record Checkpoint : Type := mkCheckpoint {
  ck_epoch : Z;
  ck_state_dict : NnModule;
  ck_optimizer : Optimizer;
  ck_scheduler : Scheduler;
  ck_scaler : ScalerState;
  ck_norms : Norms
}.

(** What a run does to the world, in order: the directory it makes, the
    collaborators it constructs or calls, with their arguments, and what it
    prints. *)
Inductive Event : Type :=
  | EvMkdir (dir : string)
  | EvLoadModel (url : string)
  | EvPrintTrainable (n : nat)
  | EvAugmentation (name : string)
  | EvDataset (dir : string)
  | EvDataLoader (dl : DataLoader)
  | EvCriterion (name : string)
  | EvOptimizer (opt : Optimizer)
  | EvPrintSteps (old new : Z)
  | EvScheduler (s : Scheduler)
  | EvGradScaler
  | EvTrain (epoch : Z)
  | EvSaveCheckpoint (state : Checkpoint) (filename : string).

(** A run: the events so far and how it ended. *)
Definition Run (A : Type) : Type := list Event * result A.

Definition run_ret {A} (a : A) : Run A := ([], Ok a).
Definition run_bind {A B} (m : Run A) (k : A → Run B) : Run B :=
  match m with
  | (t, Ok a) => let '(t', r) := k a in (t ++ t', r)
  | (t, Raise e) => (t, Raise e)
  end.
Definition emit (e : Event) : Run unit := ([e], Ok tt).
Definition raise {A} (e : exn) : Run A := ([], Raise e).
Definition lift {A} (r : result A) : Run A := ([], r).

#[global] Instance Run_ret : MRet Run := @run_ret.
#[global] Instance Run_bind : MBind Run := λ A B k m, run_bind m k.

(** [assert cond, msg] *)
Definition assert_ (cond : bool) (msg : string) : Run unit :=
  if cond then mret tt else raise (AssertionError msg).

(** [os.path.join(a, b)] for POSIX paths. *)
Definition os_path_join (a b : string) : string :=
  if String.prefix "/" b then b
  else if String.eqb a "" || endswith a "/" then a +:+ b
  else a +:+ "/" +:+ b.

(** The loop over [config['TRAIN']['augmentations']] (lines 99-110).
    [CopyPaste] passes the assertion but is a name the module never
    defines. *)
Fixpoint build_augmentations (reg : Registry) (augs : list string) : Run unit :=
  match augs with
  | [] => mret tt
  | aug_name :: rest =>
      assert_ (name_in aug_name (augmentations reg) || String.eqb aug_name "CopyPaste")
              (aug_name +:+ " is not a valid albumentations augmentation!");;
      (if String.eqb aug_name "CopyPaste" then raise (NameError "CopyPaste")
       else emit (EvAugmentation aug_name));;
      build_augmentations reg rest
  end.

(** Lines 121-125: the training dataset and the additional ones; the result
    is [len(train_dataset)]. *)
Fixpoint add_datasets (w : World) (dirs : list string) (len : nat) : Run nat :=
  match dirs with
  | [] => mret len
  | d :: rest => emit (EvDataset d);; add_datasets w rest (len + dataset_len w d)%nat
  end.

Definition build_dataset (w : World) (config : Config) : Run nat :=
  emit (EvDataset (TRAIN_train_dir config));;
  let len := dataset_len w (TRAIN_train_dir config) in
  match TRAIN_additional_train_dirs config with
  | None => mret len
  | Some dirs => add_datasets w dirs len
  end.

(** Lines 127-134: the cap on the workers is computed and the loader is
    built. *)
Definition build_loader (config : Config) (len_train_dataset : nat) : Run DataLoader :=
  num_workers ←
    (if TRAIN_batch_size config =? 0 then raise ZeroDivisionError
     else mret (Z.min (TRAIN_workers config)
                      (Z.of_nat len_train_dataset / TRAIN_batch_size config)));
  let train_loader :=
    mkDataLoader len_train_dataset (TRAIN_batch_size config) true
                 (TRAIN_workers config) true in
  emit (EvDataLoader train_loader);;
  mret train_loader.

(** Lines 145-154: the scheduler, with [steps_per_epoch] set to the length
    of the loader. *)
Definition build_scheduler (config : Config) (train_loader : DataLoader) : Run Scheduler :=
  steps ←
    match schedule_steps_per_epoch config with
    | None => mret None
    | Some n_steps =>
        if negb (n_steps =? loader_len train_loader) then
          emit (EvPrintSteps n_steps (loader_len train_loader));;
          mret (Some (loader_len train_loader))
        else mret (Some n_steps)
    end;
  let scheduler := mkScheduler (TRAIN_lr_schedule config) steps in
  emit (EvScheduler scheduler);;
  mret scheduler.

(** [range(epoch, epoch + n)] *)
Fixpoint range_from (epoch : Z) (n : nat) : list Z :=
  match n with
  | O => []
  | S n' => epoch :: range_from (epoch + 1) n'
  end.

(** The epoch loop (lines 167-182) over [range(epoch, epoch + n)]. *)
Fixpoint epoch_loop (config : Config) (model : NnModule) (optimizer : Optimizer)
    (scheduler : Scheduler) (scaler : option GradScaler) (n : nat) (epoch : Z)
    : Run unit :=
  match n with
  | O => mret tt
  | S n' =>
      (* train for one epoch *)
      emit (EvTrain epoch);;
      save_now ←
        (if TRAIN_save_freq config =? 0 then raise ZeroDivisionError
         else mret ((epoch + 1) mod TRAIN_save_freq config =? 0));
      (if save_now : bool then
         scaler_state ←
           match scaler with
           | Some s => mret (scaler_state_dict s)
           | None => raise (AttributeError
                        "'NoneType' object has no attribute 'state_dict'")
           end;
         emit (EvSaveCheckpoint
                 (mkCheckpoint (epoch + 1) model optimizer scheduler scaler_state
                               (DATASET_norms config))
                 (os_path_join (TRAIN_model_dir config)
                               (config_name config +:+ "_checkpoint.pth.tar")))
       else mret tt);;
      epoch_loop config model optimizer scheduler scaler n' (epoch + 1)
  end.

Definition main_worker (w : World) (config : Config) : Run unit :=
  (* setup the model and pick dataset class *)
  emit (EvLoadModel (TRAIN_whole_pretraining config));;
  let model := hub_load w (TRAIN_whole_pretraining config) in
  (if name_in (TRAIN_dataset_class config) (datasets (registry w)) then mret tt
   else raise (KeyError (TRAIN_dataset_class config)));;
  let norms := DATASET_norms config in
  let '(model, frozen) := freeze_encoder (TRAIN_finetune_layer config) model in
  lift frozen;;
  emit (EvPrintTrainable (num_trainable model));;
  (* set the training image augmentations *)
  build_augmentations (registry w) (TRAIN_augmentations config);;
  (* create training dataset and loader *)
  len_train_dataset ← build_dataset w config;
  train_loader ← build_loader config len_train_dataset;
  (* set criterion *)
  emit (EvCriterion (TRAIN_criterion config));;
  (* set optimizer and lr scheduler *)
  optimizer ← lift (configure_optimizer (registry w) model (TRAIN_optimizer config)
                                        (TRAIN_optimizer_params config));
  emit (EvOptimizer optimizer);;
  scheduler ← build_scheduler config train_loader;
  scaler ← (if TRAIN_amp config then emit EvGradScaler;; mret (Some mkGradScaler)
            else mret None);
  epochs ←
    match schedule_epochs config with
    | Some epochs => mret epochs
    | None =>
        match TRAIN_epochs config with
        | Some epochs => mret epochs
        | None => raise (Exception "Number of training epochs not defined!")
        end
    end;
  epoch_loop config model optimizer scheduler scaler (Z.to_nat epochs) 0.

Definition main (w : World) (config : Config) : Run unit :=
  (* create model directory if None *)
  (if negb (isdir w (TRAIN_model_dir config)) then emit (EvMkdir (TRAIN_model_dir config))
   else mret tt);;
  (* validate parameters *)
  assert_ (name_in (TRAIN_lr_schedule config) (schedules (registry w))) "";;
  assert_ (name_in (TRAIN_optimizer config) (optimizers (registry w))) "";;
  assert_ (name_in (TRAIN_criterion config) (loss_names (registry w))) "";;
  main_worker w config.

(** An event that creates the model, a dataset or its loader, the criterion,
    the optimizer, the scheduler or the scaler. *)
Definition allocates (e : Event) : bool :=
  match e with
  | EvLoadModel _ | EvDataset _ | EvDataLoader _ | EvCriterion _
  | EvOptimizer _ | EvScheduler _ | EvGradScaler => true
  | _ => false
  end.

(** The checkpoints a run wrote: epoch number and path. *)
Definition checkpoints_written (t : list Event) : list (Z * string) :=
  omap (λ e, match e with
             | EvSaveCheckpoint st f => Some (ck_epoch st, f)
             | _ => None
             end) t.

(** ** The engine cache of the test widget ([widget], lines 76-107) *)

(** A loaded model configuration; two are compared with [!=]. *)
Definition ModelConfig : Type := gmap string string.

(** The arguments of [update_params]. *)
Record EngineParams : Type := mkEngineParams {
  inference_scale : Z;
  label_divisor : Z;
  nms_threshold : Q;
  nms_kernel : Z;
  confidence_thr : Q;
  semantic_only : bool;
  fine_boundaries : bool
}.

(** Modelled from the spec: the inference engine collaborator
    ([empanada_napari.inference.TestEngine]), of which the widget uses the
    constructor and [update_params].  An engine object is its
    identity, the inputs it was constructed with, and its current
    parameters; [update_params] changes the parameters only. *)
Record TestEngine : Type := mkTestEngine {
  engine_id : nat;
  built_config : ModelConfig;
  built_use_gpu : bool;
  engine_params : EngineParams
}.

Definition update_params (e : TestEngine) (p : EngineParams) : TestEngine :=
  mkTestEngine (engine_id e) (built_config e) (built_use_gpu e) p.

(** The attributes kept on the [widget] function object, [None] while
    [hasattr] is false, and the number of engines constructed so far, which
    names the next engine object. *)
Record WidgetState : Type := mkWidgetState {
  last_config : option ModelConfig;
  using_gpu : option bool;
  engine : option TestEngine;
  engines_built : nat
}.

Definition widget_init : WidgetState := mkWidgetState None None None 0.

(** The arguments of one invocation, [model_config] already loaded and
    [maximum_objects_per_class] already an integer. *)
Record WidgetArgs : Type := mkWidgetArgs {
  arg_model_config : ModelConfig;
  arg_downsampling : Z;
  arg_min_distance_object_centers : Z;
  arg_confidence_thr : Q;
  arg_center_confidence_thr : Q;
  arg_maximum_objects_per_class : Z;
  arg_fine_boundaries : bool;
  arg_semantic_only : bool;
  arg_use_gpu : bool
}.

Definition args_params (a : WidgetArgs) : EngineParams :=
  mkEngineParams (arg_downsampling a) (arg_maximum_objects_per_class a)
                 (arg_center_confidence_thr a) (arg_min_distance_object_centers a)
                 (arg_confidence_thr a) (arg_semantic_only a) (arg_fine_boundaries a).

(** The condition of line 82, on the state after lines 76-80:
    [not hasattr(widget, 'engine') or widget.last_config != model_config
     or use_gpu != widget.using_gpu]. *)
Definition needs_new_engine (st : WidgetState) (a : WidgetArgs) : bool :=
  match engine st, last_config st, using_gpu st with
  | Some _, Some lc, Some ug =>
      negb (bool_decide (lc = arg_model_config a)) ||
      negb (Bool.eqb (arg_use_gpu a) ug)
  | _, _, _ => true
  end.

Definition widget (st : WidgetState) (a : WidgetArgs) : WidgetState :=
  let model_config := arg_model_config a in
  let use_gpu := arg_use_gpu a in
  let st :=
    match last_config st with
    | None => mkWidgetState (Some model_config) (using_gpu st) (engine st) (engines_built st)
    | Some _ => st
    end in
  let st :=
    match using_gpu st with
    | None => mkWidgetState (last_config st) (Some use_gpu) (engine st) (engines_built st)
    | Some _ => st
    end in
  if needs_new_engine st a then
    mkWidgetState (Some model_config) (Some use_gpu)
      (Some (mkTestEngine (engines_built st) model_config use_gpu (args_params a)))
      (S (engines_built st))
  else
    (* update the parameters of the engine without reloading the model *)
    match engine st with
    | Some e =>
        mkWidgetState (last_config st) (using_gpu st)
          (Some (update_params e (args_params a))) (engines_built st)
    | None => st (* not reached: without an engine the condition holds *)
    end.

(** A sequence of invocations, from the state in which the function object
    has no attribute yet. *)
Definition widget_run (calls : list WidgetArgs) : WidgetState :=
  foldl widget widget_init calls.

(** ** Notions the properties are stated with *)

(** [ps] are the parameters of the paths of [s], in the lexicographic order
    of the paths. *)
Definition group_of (model : NnModule) (s : gset string) (ps : list Param) : Prop :=
  ∃ names, Sorted String.le names ∧ NoDup names ∧
           (∀ n, In n names ↔ n ∈ s) ∧
           Forall2 (λ n p, In (n, p) (named_parameters model)) names ps.

(** The events of the first statement of [main]. *)
Definition mkdir_events (w : World) (config : Config) : list Event :=
  if negb (isdir w (TRAIN_model_dir config)) then [EvMkdir (TRAIN_model_dir config)]
  else [].

(** An event that is not the construction of a loader, and one that is not
    the writing of a checkpoint. *)
Definition not_loader (e : Event) : Prop :=
  match e with EvDataLoader _ => False | _ => True end.

Definition not_save (e : Event) : Prop :=
  match e with EvSaveCheckpoint _ _ => False | _ => True end.

(** Either the function object has no attribute yet, or it has all three
    and the cached configuration and GPU flag are the inputs the engine was
    constructed with. *)
Definition cache_coherent (st : WidgetState) : Prop :=
  (last_config st = None ∧ using_gpu st = None ∧ engine st = None) ∨
  (∃ e, engine st = Some e ∧ last_config st = Some (built_config e) ∧
        using_gpu st = Some (built_use_gpu e) ∧
        (engine_id e < engines_built st)%nat).

(** No engine yet, or one built for another configuration or GPU flag. *)
Definition must_build (st : WidgetState) (a : WidgetArgs) : Prop :=
  engine st = None ∨
  ∃ e, engine st = Some e ∧
       (built_config e ≠ arg_model_config a ∨ built_use_gpu e ≠ arg_use_gpu a).

(** ** Example inputs *)

Definition ex_param : Param := mkParam 10 true.

Definition ex_head : NnModule :=
  mkModule MultiheadAttention
    [("in_proj_weight", ex_param); ("in_proj_bias", ex_param)] [].

Definition ex_model : NnModule :=
  mkModule Container []
    [ ("encoder", mkModule Container []
        [ ("stage1", mkModule Container []
            [ ("conv", mkModule Conv2d [("weight", ex_param); ("bias", ex_param)] []);
              ("bn", mkModule BatchNorm2d [("weight", ex_param); ("bias", ex_param)] []) ]);
          ("stage2", mkModule Container []
            [ ("conv", mkModule Conv2d [("weight", ex_param)] []) ]) ]);
      ("head", ex_head) ].

(** A tree that no module can be: two children of one name. *)
Definition ex_clash : NnModule :=
  mkModule Container []
    [ ("block", mkModule Conv2d [("weight", ex_param)] []);
      ("block", mkModule BatchNorm2d [("weight", ex_param)] []) ].

Definition ex_registry : Registry :=
  mkRegistry ["OneCycleLR"] ["AdamW"; "SGD"] ["RandomResizedCrop"; "Flip"]
             ["SingleClassInstanceDataset"] ["PanopticLoss"].

Definition ex_opt_params : gmap string Q :=
  <["lr" := 3 # 1000]> (<["weight_decay" := 1 # 10]> ∅).

Definition ex_world : World :=
  mkWorld ex_registry (λ _, true) (λ _, ex_model) (λ _, 64%nat).

Definition ex_config : Config :=
  mkConfig "finetune" (mkNorms (1 # 2) (1 # 4))
    "models" "OneCycleLR" "AdamW" "PanopticLoss"
    "https://example.org/model.pth" "SingleClassInstanceDataset"
    "stage2" ["RandomResizedCrop"; "Flip"]
    "train" None
    8 16 ex_opt_params
    (Some 100) (Some 2) None
    true 1.

Definition with_finetune_layer (layer : string) (c : Config) : Config :=
  mkConfig (config_name c) (DATASET_norms c) (TRAIN_model_dir c)
    (TRAIN_lr_schedule c) (TRAIN_optimizer c) (TRAIN_criterion c)
    (TRAIN_whole_pretraining c) (TRAIN_dataset_class c) layer
    (TRAIN_augmentations c) (TRAIN_train_dir c) (TRAIN_additional_train_dirs c)
    (TRAIN_workers c) (TRAIN_batch_size c) (TRAIN_optimizer_params c)
    (schedule_steps_per_epoch c) (schedule_epochs c) (TRAIN_epochs c)
    (TRAIN_amp c) (TRAIN_save_freq c).

Definition with_lr_schedule (name : string) (c : Config) : Config :=
  mkConfig (config_name c) (DATASET_norms c) (TRAIN_model_dir c)
    name (TRAIN_optimizer c) (TRAIN_criterion c)
    (TRAIN_whole_pretraining c) (TRAIN_dataset_class c) (TRAIN_finetune_layer c)
    (TRAIN_augmentations c) (TRAIN_train_dir c) (TRAIN_additional_train_dirs c)
    (TRAIN_workers c) (TRAIN_batch_size c) (TRAIN_optimizer_params c)
    (schedule_steps_per_epoch c) (schedule_epochs c) (TRAIN_epochs c)
    (TRAIN_amp c) (TRAIN_save_freq c).

Definition with_augmentations (augs : list string) (c : Config) : Config :=
  mkConfig (config_name c) (DATASET_norms c) (TRAIN_model_dir c)
    (TRAIN_lr_schedule c) (TRAIN_optimizer c) (TRAIN_criterion c)
    (TRAIN_whole_pretraining c) (TRAIN_dataset_class c) (TRAIN_finetune_layer c)
    augs (TRAIN_train_dir c) (TRAIN_additional_train_dirs c)
    (TRAIN_workers c) (TRAIN_batch_size c) (TRAIN_optimizer_params c)
    (schedule_steps_per_epoch c) (schedule_epochs c) (TRAIN_epochs c)
    (TRAIN_amp c) (TRAIN_save_freq c).

Definition with_amp (amp : bool) (c : Config) : Config :=
  mkConfig (config_name c) (DATASET_norms c) (TRAIN_model_dir c)
    (TRAIN_lr_schedule c) (TRAIN_optimizer c) (TRAIN_criterion c)
    (TRAIN_whole_pretraining c) (TRAIN_dataset_class c) (TRAIN_finetune_layer c)
    (TRAIN_augmentations c) (TRAIN_train_dir c) (TRAIN_additional_train_dirs c)
    (TRAIN_workers c) (TRAIN_batch_size c) (TRAIN_optimizer_params c)
    (schedule_steps_per_epoch c) (schedule_epochs c) (TRAIN_epochs c)
    amp (TRAIN_save_freq c).


(** ** Further notions: the freeze policy *)

(** Whether the freezing block leaves an encoder parameter of path [pname]
    trainable: the value of its flag after the block. *)
Definition unfrozen (finetune_layer pname : string) : bool :=
  if String.eqb finetune_layer "none" then false
  else if String.eqb finetune_layer "all" then true
  else if name_in finetune_layer valid_layers then
    existsb (λ layer_name, contains ("encoder." +:+ layer_name) pname)
            (from_index finetune_layer valid_layers)
  else false.

(** The elements a parameter adds to the count of line 89. *)
Definition trainable_numel (p : Param) : nat :=
  if requires_grad p then numel p else 0%nat.


(** ** Further notions: the driver *)

(** The epochs a run trained, in order. *)
Definition trained_epochs (t : list Event) : list Z :=
  omap (λ e, match e with EvTrain epoch => Some epoch | _ => None end) t.

(** An event of the setup: neither an epoch of training nor a checkpoint. *)
Definition setup_event (e : Event) : Prop :=
  match e with
  | EvTrain _ | EvSaveCheckpoint _ _ => False
  | _ => True
  end.

(** [len(train_dataset)] after lines 121-125. *)
Definition train_dataset_len (w : World) (config : Config) : nat :=
  (dataset_len w (TRAIN_train_dir config) +
   sum_list (map (dataset_len w) (default [] (TRAIN_additional_train_dirs config))))%nat.

(** Lines 158-163: the number of epochs, from [schedule_params] first. *)
Definition configured_epochs (config : Config) : Run Z :=
  match schedule_epochs config with
  | Some epochs => mret epochs
  | None =>
      match TRAIN_epochs config with
      | Some epochs => mret epochs
      | None => raise (Exception "Number of training epochs not defined!")
      end
  end.

(** The configuration is one that the setup of [main_worker] accepts. *)
Definition setup_ok (w : World) (config : Config) : Prop :=
  name_in (TRAIN_lr_schedule config) (schedules (registry w)) = true ∧
  name_in (TRAIN_optimizer config) (optimizers (registry w)) = true ∧
  name_in (TRAIN_criterion config) (loss_names (registry w)) = true ∧
  name_in (TRAIN_dataset_class config) (datasets (registry w)) = true ∧
  (TRAIN_finetune_layer config = "none" ∨ TRAIN_finetune_layer config = "all" ∨
   In (TRAIN_finetune_layer config) valid_layers) ∧
  Forall (λ a, name_in a (augmentations (registry w)) = true ∧ a ≠ "CopyPaste")
         (TRAIN_augmentations config) ∧
  TRAIN_batch_size config ≠ 0 ∧
  wf_module (hub_load w (TRAIN_whole_pretraining config)) = true.

(** The path of every checkpoint of a run. *)
Definition checkpoint_path (config : Config) : string :=
  os_path_join (TRAIN_model_dir config) (config_name config +:+ "_checkpoint.pth.tar").


Definition not_dataset (e : Event) : Prop :=
  match e with EvDataset _ => False | _ => True end.

Definition with_epochs (sched train : option Z) (c : Config) : Config :=
  mkConfig (config_name c) (DATASET_norms c) (TRAIN_model_dir c)
    (TRAIN_lr_schedule c) (TRAIN_optimizer c) (TRAIN_criterion c)
    (TRAIN_whole_pretraining c) (TRAIN_dataset_class c) (TRAIN_finetune_layer c)
    (TRAIN_augmentations c) (TRAIN_train_dir c) (TRAIN_additional_train_dirs c)
    (TRAIN_workers c) (TRAIN_batch_size c) (TRAIN_optimizer_params c)
    (schedule_steps_per_epoch c) sched train
    (TRAIN_amp c) (TRAIN_save_freq c).

Definition with_save_freq (save_freq : Z) (c : Config) : Config :=
  mkConfig (config_name c) (DATASET_norms c) (TRAIN_model_dir c)
    (TRAIN_lr_schedule c) (TRAIN_optimizer c) (TRAIN_criterion c)
    (TRAIN_whole_pretraining c) (TRAIN_dataset_class c) (TRAIN_finetune_layer c)
    (TRAIN_augmentations c) (TRAIN_train_dir c) (TRAIN_additional_train_dirs c)
    (TRAIN_workers c) (TRAIN_batch_size c) (TRAIN_optimizer_params c)
    (schedule_steps_per_epoch c) (schedule_epochs c) (TRAIN_epochs c)
    (TRAIN_amp c) save_freq.

Definition with_batch_size (batch_size : Z) (c : Config) : Config :=
  mkConfig (config_name c) (DATASET_norms c) (TRAIN_model_dir c)
    (TRAIN_lr_schedule c) (TRAIN_optimizer c) (TRAIN_criterion c)
    (TRAIN_whole_pretraining c) (TRAIN_dataset_class c) (TRAIN_finetune_layer c)
    (TRAIN_augmentations c) (TRAIN_train_dir c) (TRAIN_additional_train_dirs c)
    (TRAIN_workers c) batch_size (TRAIN_optimizer_params c)
    (schedule_steps_per_epoch c) (schedule_epochs c) (TRAIN_epochs c)
    (TRAIN_amp c) (TRAIN_save_freq c).


(** ** One epoch of training ([train], lines 234-328) *)

(** A computation that leaves a trace of events of type [E]. *)
Definition Trace (E A : Type) : Type := list E * result A.

Definition trace_ret {E A} (a : A) : Trace E A := ([], Ok a).
Definition trace_bind {E A B} (m : Trace E A) (k : A → Trace E B) : Trace E B :=
  match m with
  | (t, Ok a) => let '(t', r) := k a in (t ++ t', r)
  | (t, Raise e) => (t, Raise e)
  end.
Definition tell {E} (e : E) : Trace E unit := ([e], Ok tt).
Definition throw {E A} (e : exn) : Trace E A := ([], Raise e).

#[global] Instance Trace_ret {E} : MRet (Trace E) := @trace_ret E.
#[global] Instance Trace_bind {E} : MBind (Trace E) := λ A B k m, trace_bind m k.

(** An entry of [config['TRAIN']['metrics']]: its ['name'] and ['metric']
    keys, [None] when absent, and the other keys. *)
Record MetricParams : Type := mkMetricParams {
  mp_name : option string;
  mp_metric : option string;
  mp_params : gmap string Q
}.

(** The keys of [config] that [train] reads. *)
Record TrainConfig : Type := mkTrainConfig {
  TRAIN_metrics : list MetricParams;
  TRAIN_print_freq : Z
}.

(** A batch of the loader, by what the criterion returns on it: the keys of
    [aux_loss], in the order of the dictionary. *)
Record Batch : Type := mkBatch {
  aux_loss_keys : list string
}.

(** What [train] does, in order. *)
Inductive TrainEvent : Type :=
  | TMetric (reg_name metric_name : string)
  | TModelTrain
  | TZeroGrad
  | TForward
  | TBackward (scaled : bool)
  | TScalerStep
  | TScalerUpdate
  | TOptimizerStep
  | TSchedulerStep
  | TNewLossMeter (k : string)
  | TLossUpdate (k : string)
  | TEvaluate
  | TDisplay (i : Z) (meters : list string)
  | TMetricsDisplay.

(** [d[key]] on an entry that may lack the key. *)
Definition getitem {E} (key : string) (v : option string) : Trace E string :=
  match v with
  | Some x => mret x
  | None => throw (KeyError key)
  end.

(** Lines 257-262: [metric_dict], a later entry of the same name replacing
    an earlier one; [metrics_names] are the names of [metrics.__dict__]. *)
Fixpoint build_metric_dict (metrics_names : list string) (ms : list MetricParams)
    (metric_dict : gmap string string) : Trace TrainEvent (gmap string string) :=
  match ms with
  | [] => mret metric_dict
  | metric_params :: rest =>
      reg_name ← getitem "name" (mp_name metric_params);
      metric_name ← getitem "metric" (mp_metric metric_params);
      (if name_in metric_name metrics_names then tell (TMetric reg_name metric_name)
       else throw (KeyError metric_name));;
      build_metric_dict metrics_names rest (<[reg_name := metric_name]> metric_dict)
  end.

(** Lines 303-309: the first batch creates a meter for every key of
    [aux_loss] and appends it to the meters of the progress line. *)
Fixpoint new_loss_meters (keys : list string) (loss_meters progress_meters : list string)
    : Trace TrainEvent (list string * list string) :=
  match keys with
  | [] => mret (loss_meters, progress_meters)
  | k :: rest =>
      tell (TNewLossMeter k);;
      tell (TLossUpdate k);;
      new_loss_meters rest (loss_meters ++ [k]) (progress_meters ++ [k])
  end.

(** Lines 310-312: a later batch updates the meter of every key. *)
Fixpoint update_loss_meters (keys : list string) (loss_meters : list string)
    : Trace TrainEvent unit :=
  match keys with
  | [] => mret tt
  | k :: rest =>
      (if name_in k loss_meters then tell (TLossUpdate k) else throw (KeyError k));;
      update_loss_meters rest loss_meters
  end.

(** The body of the loop over [enumerate(train_loader)], from batch [i] on.
    [loss_meters] is [None] before the first batch. *)
Fixpoint train_batches (print_freq : Z) (scaler : option GradScaler) (i : Z)
    (batches : list Batch) (loss_meters : option (list string))
    (progress_meters : list string) : Trace TrainEvent unit :=
  match batches with
  | [] => mret tt
  | batch :: rest =>
      (* zero grad before running *)
      tell TZeroGrad;;
      (* compute output *)
      match scaler with
      | Some _ =>
          tell TForward;; tell (TBackward true);;
          tell TScalerStep;; tell TScalerUpdate
      | None =>
          tell TForward;; tell (TBackward false);; tell TOptimizerStep
      end;;
      (* update the LR *)
      tell TSchedulerStep;;
      (* record losses *)
      meters ←
        match loss_meters with
        | None => new_loss_meters (aux_loss_keys batch) [] progress_meters
        | Some ms =>
            update_loss_meters (aux_loss_keys batch) ms;;
            mret (ms, progress_meters)
        end;
      tell TEvaluate;;
      (if print_freq =? 0 then throw ZeroDivisionError
       else if i mod print_freq =? 0 then tell (TDisplay i (snd meters))
       else mret tt);;
      train_batches print_freq scaler (i + 1) rest (Some (fst meters)) (snd meters)
  end.

Definition train (metrics_names : list string) (config : TrainConfig)
    (scaler : option GradScaler) (train_loader : list Batch) : Trace TrainEvent unit :=
  let progress_meters := ["Time"; "Data"] in
  build_metric_dict metrics_names (TRAIN_metrics config) ∅;;
  (* switch to train mode *)
  tell TModelTrain;;
  train_batches (TRAIN_print_freq config) scaler 0 train_loader None progress_meters;;
  (* end of epoch print evaluation metrics *)
  tell TMetricsDisplay.

(** The events that change the weights or the learning rate. *)
Definition is_step (e : TrainEvent) : bool :=
  match e with
  | TScalerStep | TScalerUpdate | TOptimizerStep | TSchedulerStep => true
  | _ => false
  end.

(** The steps of one batch. *)
Definition batch_steps (scaler : option GradScaler) : list TrainEvent :=
  match scaler with
  | Some _ => [TScalerStep; TScalerUpdate; TSchedulerStep]
  | None => [TOptimizerStep; TSchedulerStep]
  end.

(** The batch numbers at which the progress line was displayed, each with
    the meters it listed. *)
Definition displays (t : list TrainEvent) : list (Z * list string) :=
  omap (λ e, match e with TDisplay i ms => Some (i, ms) | _ => None end) t.


(** The configuration and the loader are such that [train] runs to its end:
    every metric entry has its two keys and names a known metric,
    [print_freq] is not zero, and no batch after the first brings an
    [aux_loss] key that the first did not have. *)
Definition train_ok (metrics_names : list string) (config : TrainConfig)
    (train_loader : list Batch) : Prop :=
  Forall (λ mp, ∃ n k, mp_name mp = Some n ∧ mp_metric mp = Some k ∧
                       name_in k metrics_names = true)
         (TRAIN_metrics config) ∧
  TRAIN_print_freq config ≠ 0 ∧
  match train_loader with
  | [] => True
  | first :: rest =>
      Forall (λ b, ∀ k, In k (aux_loss_keys b) → In k (aux_loss_keys first)) rest
  end.

(** The keys of the first batch, if there is a batch. *)
Definition first_keys (train_loader : list Batch) : list string :=
  match train_loader with
  | [] => []
  | first :: _ => aux_loss_keys first
  end.

Definition ex_train_config : TrainConfig :=
  mkTrainConfig [mkMetricParams (Some "iou") (Some "IoU") ∅] 2.

Definition ex_loader : list Batch :=
  [mkBatch ["ce"; "l1"]; mkBatch ["ce"]; mkBatch ["l1"; "ce"]].


(** ** The counter of the progress line ([ProgressMeter._get_batch_fmtstr]) *)

(** [str(n)] for an integer. *)
Definition str_int (n : Z) : string := pretty n.

Fixpoint spaces (n : nat) : string :=
  match n with
  | O => ""
  | S n' => String " " (spaces n')
  end.

(** ['{:Wd}'.format(n)]: [n] right-aligned in a field of width [W], and
    whole when it is longer. *)
Definition format_d (width : nat) (n : Z) : string :=
  spaces (width - String.length (str_int n)) +:+ str_int n.

(** A format string with one field ['{:Wd}'], by the text before the field,
    its width and the text after it. *)
Record BatchFmt : Type := mkBatchFmt {
  fmt_before : string;
  fmt_width : nat;
  fmt_after : string
}.

(** [fmtstr.format(n)] *)
Definition fmt_format (f : BatchFmt) (n : Z) : string :=
  fmt_before f +:+ format_d (fmt_width f) n +:+ fmt_after f.

Definition _get_batch_fmtstr (num_batches : Z) : BatchFmt :=
  let num_digits := String.length (str_int (num_batches / 1)) in
  mkBatchFmt "[" num_digits ("/" +:+ format_d num_digits num_batches +:+ "]").


(** ** The engine across a sequence of invocations *)

(** What the engine is rebuilt for: the configuration and the GPU flag. *)
Definition build_key (a : WidgetArgs) : ModelConfig * bool :=
  (arg_model_config a, arg_use_gpu a).

(** The number of invocations of a sequence whose key differs from the key
    of the invocation before, the first one counted. *)
Fixpoint key_changes (prev : option (ModelConfig * bool)) (calls : list WidgetArgs)
    : nat :=
  match calls with
  | [] => 0
  | a :: rest =>
      ((if bool_decide (prev = Some (build_key a)) then 0 else 1) +
       key_changes (Some (build_key a)) rest)%nat
  end.

(** ** The slice under the cursor ([_get_current_slice], [_show_test_result]) *)

(** An array: its shape and its element at an index. *)
Record NdArray : Type := mkNdArray {
  shape : list nat;
  at_index : list nat → Z
}.

Definition ndim (a : NdArray) : nat := length (shape a).

(** [image_layer.data]: an array, or the levels of a multiscale image. *)
Inductive LayerData : Type :=
  | SingleScale (image : NdArray)
  | MultiScale (levels : list NdArray).

Inductive slice_exn : Type :=
  | IndexError (msg : string)
  | AxisError (msg : string).

Inductive sliced (A : Type) : Type :=
  | Got (a : A)
  | Fails (e : slice_exn).
Arguments Got {A} a.
Arguments Fails {A} e.

(** [l[:i] + [x] + l[i:]] *)
Definition insert_at {A} (i : nat) (x : A) (l : list A) : list A :=
  take i l ++ x :: drop i l.

(** [int(x)] for a float: the integer part, towards zero. *)
Definition int_of (x : Q) : Z := Z.quot (Qnum x) (Z.pos (Qden x)).

(** [image[:, .., k, .., :]] with the integer [k] at position [axis]: a
    negative [k] counts from the end. *)
Definition index_axis (image : NdArray) (axis : nat) (k : Z) : sliced NdArray :=
  match shape image !! axis with
  | None => Fails (IndexError "too many indices for array")
  | Some n =>
      if (0 <=? k) && (k <? Z.of_nat n) then
        Got (mkNdArray (delete axis (shape image))
                       (λ idx, at_index image (insert_at axis (Z.to_nat k) idx)))
      else if (- Z.of_nat n <=? k) && (k <? 0) then
        Got (mkNdArray (delete axis (shape image))
                       (λ idx, at_index image
                                 (insert_at axis (Z.to_nat (k + Z.of_nat n)) idx)))
      else Fails (IndexError "index out of bounds")
  end.

(** [np.expand_dims(seg, axis=axis)] for an axis that is not negative. *)
Definition expand_dims (seg : NdArray) (axis : nat) : sliced NdArray :=
  if (axis <=? ndim seg)%nat then
    Got (mkNdArray (insert_at axis 1%nat (shape seg))
                   (λ idx, at_index seg (delete axis idx)))
  else Fails (AxisError "axis is out of bounds").

(** [_get_current_slice]: [axis0] is [viewer.dims.order[0]] and [data_pos]
    is what [image_layer.world_to_data(cursor_pos)] returns. *)
Definition _get_current_slice (axis0 : nat) (data_pos : list Q) (data : LayerData)
    : sliced (NdArray * option nat * option Z) :=
  let axis := axis0 in
  (* handle multiscale by taking highest resolution level *)
  match
    match data with
    | SingleScale image => Got image
    | MultiScale levels =>
        match levels with
        | image :: _ => Got image
        | [] => Fails (IndexError "list index out of range")
        end
    end
  with
  | Fails e => Fails e
  | Got image =>
      if (ndim image =? 3)%nat then
        match data_pos !! axis with
        | None => Fails (IndexError "tuple index out of range")
        | Some x =>
            let plane := int_of x in
            if (3 <=? axis)%nat then
              Fails (IndexError "list assignment index out of range")
            else
              match index_axis image axis plane with
              | Fails e => Fails e
              | Got image2d => Got (image2d, Some axis, Some plane)
              end
        end
      else if (ndim image <? 2)%nat then
        Fails (IndexError "too many indices for array")
      else Got (image, None, None)
  end.

(** The arguments of [viewer.add_labels]. *)
Record Labels : Type := mkLabels {
  labels_data : NdArray;
  translate : list Z
}.

(** [_show_test_result], by the labels layer that it adds. *)
Definition _show_test_result (args : NdArray * option nat * option Z) : sliced Labels :=
  let '(seg, axis, plane) := args in
  match axis, plane with
  | Some axis, Some plane =>
      match expand_dims seg axis with
      | Fails e => Fails e
      | Got seg =>
          if (3 <=? axis)%nat then
            Fails (IndexError "list assignment index out of range")
          else Got (mkLabels seg (<[axis := plane]> [0; 0; 0]))
      end
  | _, _ => Got (mkLabels seg [0; 0])
  end.

(** The position of an element of a layer: its index moved by the
    translation of the layer. *)
Definition shown_at (translate : list Z) (idx : list nat) : list Z :=
  zip_with Z.add (map Z.of_nat idx) translate.

Definition ex_image : NdArray :=
  mkNdArray [4; 5; 6]%nat
    (λ idx, match idx with
            | [i; j; k] => Z.of_nat (100 * i + 10 * j + k)
            | _ => 0
            end).


(** The key of the engine that the widget holds, if it holds one. *)
Definition engine_key (st : WidgetState) : option (ModelConfig * bool) :=
  match engine st with
  | Some e => Some (built_config e, built_use_gpu e)
  | None => None
  end.

(* ===================================================================== *)
(** * Part II: properties                                                 *)
(* ===================================================================== *)

(** ** Strings *)

Lemma app_cons c a b : String c a +:+ b = String c (a +:+ b).
Proof. reflexivity. Qed.

Lemma endswith_refl s : endswith s s = true.
Proof.
  destruct s as [|c s]; [reflexivity|].
  change (String.eqb (String c s) (String c s) || endswith s (String c s) = true).
  rewrite String.eqb_refl. reflexivity.
Qed.

Lemma endswith_app a b : endswith (a +:+ b) b = true.
Proof.
  induction a as [|c a IH].
  - apply endswith_refl.
  - rewrite app_cons.
    change (String.eqb (String c (a +:+ b)) b || endswith (a +:+ b) b = true).
    rewrite IH. apply orb_true_r.
Qed.

Lemma app_assoc a b c : (a +:+ b) +:+ c = a +:+ b +:+ c.
Proof.
  induction a as [|d a IH]; [reflexivity|].
  rewrite !app_cons. f_equal. exact IH.
Qed.

Lemma endswith_join_path mn pn : endswith (join_path mn pn) pn = true.
Proof.
  destruct mn as [|c mn]; unfold join_path.
  - apply endswith_refl.
  - rewrite <- app_assoc. apply endswith_app.
Qed.

Lemma prefix_app_l a b s : String.prefix (a +:+ b) s = true → String.prefix a s = true.
Proof.
  revert s. induction a as [|c a IH]; intros s H.
  - destruct s; reflexivity.
  - rewrite app_cons in H. destruct s as [|d s]; simpl in *; [discriminate|].
    destruct (ascii_dec c d); [|discriminate]. apply IH. exact H.
Qed.

Lemma contains_app_l a b s : contains (a +:+ b) s = true → contains a s = true.
Proof.
  induction s as [|d s IH]; cbn [contains]; intros H.
  - apply orb_true_iff in H as [H|H]; [|discriminate].
    apply prefix_app_l in H. rewrite H. reflexivity.
  - apply orb_true_iff in H as [H|H].
    + apply prefix_app_l in H. rewrite H. reflexivity.
    + rewrite (IH H). apply orb_true_r.
Qed.

(** A path below [encoder.<stage>] is a path of the encoder. *)
Lemma contains_encoder_stage layer pname :
  contains ("encoder." +:+ layer) pname = true → contains "encoder" pname = true.
Proof.
  intros H. apply (contains_app_l "encoder" ("." +:+ layer)). exact H.
Qed.

(** ** Module trees *)

Lemma NnModule_ind' (P : NnModule → Prop) :
  (∀ c ps ch, Forall (λ nc, P (snd nc)) ch → P (mkModule c ps ch)) →
  ∀ m, P m.
Proof.
  intros H. fix IH 1. intros [c ps ch]. apply H.
  induction ch as [|nc ch IHch]; constructor; [apply IH | exact IHch].
Qed.

Lemma flat_map_flat_map {A B C} (f : A → list B) (g : B → list C) l :
  flat_map g (flat_map f l) = flat_map (λ x, flat_map g (f x)) l.
Proof.
  induction l as [|x l IH]; simpl; [reflexivity|].
  rewrite flat_map_app, IH. reflexivity.
Qed.

Lemma flat_map_map {A B C} (f : A → B) (g : B → list C) l :
  flat_map g (map f l) = flat_map (λ x, g (f x)) l.
Proof. induction l as [|x l IH]; simpl; [reflexivity|]. rewrite IH. reflexivity. Qed.

Lemma map_flat_map {A B C} (f : A → list B) (g : B → C) l :
  map g (flat_map f l) = flat_map (λ x, map g (f x)) l.
Proof.
  induction l as [|x l IH]; simpl; [reflexivity|].
  rewrite map_app, IH. reflexivity.
Qed.

Lemma flat_map_ext_Forall {A B} (f g : A → list B) l :
  Forall (λ x, f x = g x) l → flat_map f l = flat_map g l.
Proof. induction 1 as [|x l E _ IH]; simpl; [reflexivity|]. rewrite E, IH. reflexivity. Qed.

Lemma named_parameters_from_unfold prefix m :
  named_parameters_from prefix m =
    map (λ kv, (join_path prefix (fst kv), snd kv)) (_parameters m) ++
    flat_map (λ nc, named_parameters_from (join_path prefix (fst nc)) (snd nc))
             (_modules m).
Proof.
  unfold named_parameters_from. destruct m as [c ps ch]. simpl.
  unfold named_parameters_own at 1. simpl. f_equal.
  apply flat_map_flat_map.
Qed.

Lemma named_parameters_unfold m :
  named_parameters m = named_parameters_from "" m.
Proof. reflexivity. Qed.

(** Rewriting the parameters in place keeps their paths and their order. *)
Lemma named_parameters_map_params_from f m : ∀ prefix,
  named_parameters_from prefix (map_params_from f prefix m) =
    map (λ np, (fst np, f (fst np) (snd np))) (named_parameters_from prefix m).
Proof.
  induction m as [c ps ch IH] using NnModule_ind'. intros prefix.
  rewrite !named_parameters_from_unfold. simpl.
  rewrite map_app, !map_map. simpl. f_equal.
  rewrite flat_map_map, map_flat_map.
  apply flat_map_ext_Forall.
  eapply Forall_impl; [exact IH|]. intros [n child] Hc. simpl in *. apply Hc.
Qed.

(** ** Layer-freeze policy *)

Lemma named_parameters_set_requires_grad cond v model :
  named_parameters (set_requires_grad cond v model) =
    map (λ np, (fst np, set_flag cond v (fst np) (snd np))) (named_parameters model).
Proof.
  unfold set_requires_grad. rewrite !named_parameters_unfold.
  apply named_parameters_map_params_from.
Qed.

Lemma named_parameters_unfreeze_layers layers : ∀ model,
  named_parameters
    (foldl (λ mdl layer_name,
              set_requires_grad (contains ("encoder." +:+ layer_name)) true mdl)
           model layers) =
  map (λ np, (fst np,
              foldl (λ p layer_name,
                       set_flag (contains ("encoder." +:+ layer_name)) true (fst np) p)
                    (snd np) layers))
      (named_parameters model).
Proof.
  induction layers as [|l layers IH]; intros model; simpl.
  - rewrite <- (map_id (named_parameters model)) at 1.
    apply map_ext. intros [n p]. reflexivity.
  - rewrite IH, named_parameters_set_requires_grad, map_map. reflexivity.
Qed.

(** The block acts on every parameter on its own, by [freeze_param]. *)
Lemma named_parameters_freeze_encoder S model :
  named_parameters (fst (freeze_encoder S model)) =
    map (λ np, (fst np, freeze_param S (fst np) (snd np))) (named_parameters model).
Proof.
  unfold freeze_encoder, freeze_param.
  destruct (String.eqb S "none"); [|destruct (String.eqb S "all");
    [|destruct (name_in S valid_layers)]]; cbn [fst].
  - apply named_parameters_set_requires_grad.
  - rewrite !named_parameters_set_requires_grad, map_map. reflexivity.
  - rewrite named_parameters_unfreeze_layers, named_parameters_set_requires_grad, map_map.
    reflexivity.
  - apply named_parameters_set_requires_grad.
Qed.

Lemma requires_grad_unfreeze_layers pname layers : ∀ p,
  requires_grad
    (foldl (λ p layer_name,
              set_flag (contains ("encoder." +:+ layer_name)) true pname p) p layers) =
  requires_grad p || existsb (λ l, contains ("encoder." +:+ l) pname) layers.
Proof.
  induction layers as [|l layers IH]; intros p; simpl.
  - rewrite orb_false_r. reflexivity.
  - rewrite IH. unfold set_flag.
    destruct (contains ("encoder." +:+ l) pname); simpl.
    + rewrite orb_true_r. reflexivity.
    + reflexivity.
Qed.

Lemma unfreeze_layers_not_encoder pname layers : ∀ p,
  contains "encoder" pname = false →
  foldl (λ p layer_name,
           set_flag (contains ("encoder." +:+ layer_name)) true pname p) p layers = p.
Proof.
  induction layers as [|l layers IH]; intros p H; simpl; [reflexivity|].
  unfold set_flag at 2.
  destruct (contains ("encoder." +:+ l) pname) eqn:E.
  - apply contains_encoder_stage in E. congruence.
  - apply IH. exact H.
Qed.

(** A parameter outside the encoder is left as it is, whatever the selector. *)
Lemma freeze_param_not_encoder S pname p :
  contains "encoder" pname = false → freeze_param S pname p = p.
Proof.
  intros H.
  assert (E : ∀ v q, set_flag (contains "encoder") v pname q = q).
  { intros v q. unfold set_flag. rewrite H. reflexivity. }
  unfold freeze_param. rewrite !E.
  destruct (String.eqb S "none"); [reflexivity|].
  destruct (String.eqb S "all"); [reflexivity|].
  destruct (name_in S valid_layers); [|reflexivity].
  apply unfreeze_layers_not_encoder. exact H.
Qed.

Lemma from_index_stage_from S T :
  In S valid_layers → (In T (from_index S valid_layers) ↔ stage_from S T).
Proof.
  unfold stage_from, valid_layers. intros HS. split.
  - intros HT.
    apply list_elem_of_In, list_elem_of_lookup in HS as [i Hi].
    destruct i as [|[|[|[|i]]]]; simplify_eq/=;
      repeat (destruct HT as [<-|HT];
        [first [ exists 0%nat, 0%nat; repeat split; lia
               | exists 0%nat, 1%nat; repeat split; lia
               | exists 0%nat, 2%nat; repeat split; lia
               | exists 0%nat, 3%nat; repeat split; lia
               | exists 1%nat, 1%nat; repeat split; lia
               | exists 1%nat, 2%nat; repeat split; lia
               | exists 1%nat, 3%nat; repeat split; lia
               | exists 2%nat, 2%nat; repeat split; lia
               | exists 2%nat, 3%nat; repeat split; lia
               | exists 3%nat, 3%nat; repeat split; lia ] |]);
      destruct HT.
  - intros (i & j & Hi & Hj & Hle).
    destruct i as [|[|[|[|i]]]]; simplify_eq/=;
      destruct j as [|[|[|[|j]]]]; simplify_eq/=; try lia; auto 6.
Qed.

Lemma Forall2_map_r_In {A B} (R : A → B → Prop) (f : A → B) l :
  (∀ x, In x l → R x (f x)) → Forall2 R l (map f l).
Proof.
  induction l as [|x l IH]; intros H; simpl; constructor.
  - apply H. left. reflexivity.
  - apply IH. intros y Hy. apply H. right. exact Hy.
Qed.

Lemma name_in_true x l : name_in x l = true ↔ In x l.
Proof.
  unfold name_in. rewrite bool_decide_eq_true. apply list_elem_of_In.
Qed.

Lemma name_in_false x l : name_in x l = false ↔ ¬ In x l.
Proof.
  unfold name_in. rewrite bool_decide_eq_false, list_elem_of_In. reflexivity.
Qed.

(** C3. A stage selector outside the fixed list fails the assertion; for a
    stage [S] of the list, every parameter whose path contains
    [encoder.<T>] for a stage [T] from [S] onward ends with
    [requires_grad = true], and every encoder parameter whose path contains
    no such stage ends with [requires_grad = false]. *)
Theorem freeze_stage_selector (S : string) (model : NnModule) :
  S ≠ "none" → S ≠ "all" →
  (¬ In S valid_layers →
     snd (freeze_encoder S model) = Raise (AssertionError "")) ∧
  (In S valid_layers →
     snd (freeze_encoder S model) = Ok tt ∧
     Forall2 (λ old new,
        fst new = fst old ∧
        ((∃ T, stage_from S T ∧ contains ("encoder." +:+ T) (fst old) = true) →
           requires_grad (snd new) = true) ∧
        (contains "encoder" (fst old) = true →
         (∀ T, stage_from S T → contains ("encoder." +:+ T) (fst old) = false) →
           requires_grad (snd new) = false))
       (named_parameters model)
       (named_parameters (fst (freeze_encoder S model)))).
Proof.
  intros Hnone Hall.
  apply String.eqb_neq in Hnone, Hall.
  split.
  - intros Hin. apply name_in_false in Hin.
    unfold freeze_encoder. rewrite Hnone, Hall, Hin. reflexivity.
  - intros Hin. pose proof Hin as Hb. apply name_in_true in Hb.
    split.
    + unfold freeze_encoder. rewrite Hnone, Hall, Hb. reflexivity.
    + rewrite named_parameters_freeze_encoder.
      apply Forall2_map_r_In. intros [pname p] _. cbn [fst snd].
      split; [reflexivity|].
      unfold freeze_param. rewrite Hnone, Hall, Hb.
      rewrite requires_grad_unfreeze_layers.
      split.
      * intros (T & HT & Hc). apply orb_true_iff. right.
        apply existsb_exists. exists T. split; [|exact Hc].
        apply from_index_stage_from; assumption.
      * intros Henc Hno. unfold set_flag. rewrite Henc. simpl.
        destruct (existsb _ _) eqn:E; [|reflexivity].
        apply existsb_exists in E as (T & HT & Hc).
        apply from_index_stage_from in HT; [|assumption].
        rewrite (Hno T HT) in Hc. discriminate.
Qed.

(** The selector [stage2] on [ex_model]. *)
Lemma freeze_stage_selector_witness :
  "stage2" ≠ "none" ∧ "stage2" ≠ "all" ∧ In "stage2" valid_layers ∧
  snd (freeze_encoder "stage2" ex_model) = Ok tt ∧
  Forall2 (λ old new,
     fst new = fst old ∧
     ((∃ T, stage_from "stage2" T ∧ contains ("encoder." +:+ T) (fst old) = true) →
        requires_grad (snd new) = true) ∧
     (contains "encoder" (fst old) = true →
      (∀ T, stage_from "stage2" T → contains ("encoder." +:+ T) (fst old) = false) →
        requires_grad (snd new) = false))
    (named_parameters ex_model)
    (named_parameters (fst (freeze_encoder "stage2" ex_model))).
Proof.
  assert (H1 : "stage2" ≠ "none") by discriminate.
  assert (H2 : "stage2" ≠ "all") by discriminate.
  assert (H3 : In "stage2" valid_layers) by (simpl; tauto).
  split; [exact H1|]. split; [exact H2|]. split; [exact H3|].
  exact (proj2 (freeze_stage_selector "stage2" ex_model H1 H2) H3).
Defined.


(** C7. With selector [none] every encoder parameter ends frozen, with
    [all] every encoder parameter ends trainable, and with any selector a
    parameter whose path has no [encoder] in it is the same object with the
    same flag before and after (so a trainable one stays trainable). *)
Theorem freeze_none_all_frame (S : string) (model : NnModule) :
  Forall2 (λ old new,
     fst new = fst old ∧
     (contains "encoder" (fst old) = true → S = "none" →
        requires_grad (snd new) = false) ∧
     (contains "encoder" (fst old) = true → S = "all" →
        requires_grad (snd new) = true) ∧
     (contains "encoder" (fst old) = false →
        snd new = snd old ∧
        (requires_grad (snd old) = true → requires_grad (snd new) = true)))
    (named_parameters model)
    (named_parameters (fst (freeze_encoder S model))).
Proof.
  rewrite named_parameters_freeze_encoder.
  apply Forall2_map_r_In. intros [pname p] _. cbn [fst snd].
  split; [reflexivity|]. split; [|split].
  - intros Henc ->. unfold freeze_param, set_flag. simpl. rewrite Henc. reflexivity.
  - intros Henc ->. unfold freeze_param, set_flag. simpl. rewrite Henc. reflexivity.
  - intros Henc. rewrite (freeze_param_not_encoder S pname p Henc). auto.
Qed.

(** ** Weight-decay partitioner *)

Lemma foldl_flat_map {A B C} (f : A → C → A) (g : B → list C) l : ∀ a,
  foldl f a (flat_map g l) = foldl (λ a x, foldl f a (g x)) a l.
Proof.
  induction l as [|x l IH]; intros a; simpl; [reflexivity|].
  rewrite foldl_app. apply IH.
Qed.

Lemma foldl_map {A B C} (f : A → C → A) (g : B → C) l : ∀ a,
  foldl f a (map g l) = foldl (λ a x, f a (g x)) a l.
Proof. induction l as [|x l IH]; intros a; simpl; [reflexivity|]. apply IH. Qed.

Lemma foldl_ext' {A B} (f g : A → B → A) l :
  (∀ a x, f a x = g a x) → ∀ a, foldl f a l = foldl g a l.
Proof.
  intros E. induction l as [|x l IH]; intros a; simpl; [reflexivity|].
  rewrite E. apply IH.
Qed.

Lemma classify_exempt m x decay no_decay :
  classify m x (decay, no_decay) =
    if exempt m x then (decay, no_decay ∪ {[x]}) else (decay ∪ {[x]}, no_decay).
Proof.
  unfold classify, exempt.
  destruct (endswith x "bias"); [reflexivity|].
  destruct (endswith x "weight" && isinstance_blacklist m); reflexivity.
Qed.

(** The nested loops are one loop over [owned]. *)
Lemma decay_sets_owned model :
  decay_sets model =
    foldl (λ sets fo, classify (snd fo) (fst fo) sets) (∅, ∅) (owned model).
Proof.
  unfold decay_sets, owned. rewrite foldl_flat_map.
  apply foldl_ext'. intros sets [mn m]. cbn [fst snd].
  rewrite foldl_map. reflexivity.
Qed.

Lemma classify_loop_decay x l : ∀ sets,
  x ∈ fst (foldl (λ sets fo, classify (snd fo) (fst fo) sets) sets l) ↔
  x ∈ fst sets ∨ ∃ m, In (x, m) l ∧ exempt m x = false.
Proof.
  induction l as [|[y m] l IH]; intros [decay no_decay]; cbn [foldl fst snd].
  - split; [auto|]. intros [H|(m & [] & _)]. exact H.
  - rewrite IH, classify_exempt. cbn [In].
    destruct (exempt m y) eqn:E; cbn [fst].
    + split.
      * intros [H|(m' & H & E')]; [auto|]. right. exists m'. auto.
      * intros [H|(m' & [H|H] & E')]; [auto| |].
        -- inversion H; subst. congruence.
        -- right. exists m'. auto.
    + rewrite elem_of_union, elem_of_singleton. split.
      * intros [[H| ->]|(m' & H & E')]; [auto| |].
        -- right. exists m. auto.
        -- right. exists m'. auto.
      * intros [H|(m' & [H|H] & E')]; [auto| |].
        -- inversion H; subst. auto.
        -- right. exists m'. auto.
Qed.

Lemma classify_loop_no_decay x l : ∀ sets,
  x ∈ snd (foldl (λ sets fo, classify (snd fo) (fst fo) sets) sets l) ↔
  x ∈ snd sets ∨ ∃ m, In (x, m) l ∧ exempt m x = true.
Proof.
  induction l as [|[y m] l IH]; intros [decay no_decay]; cbn [foldl fst snd].
  - split; [auto|]. intros [H|(m & [] & _)]. exact H.
  - rewrite IH, classify_exempt. cbn [In].
    destruct (exempt m y) eqn:E; cbn [snd].
    + rewrite elem_of_union, elem_of_singleton. split.
      * intros [[H| ->]|(m' & H & E')]; [auto| |].
        -- right. exists m. auto.
        -- right. exists m'. auto.
      * intros [H|(m' & [H|H] & E')]; [auto| |].
        -- inversion H; subst. auto.
        -- right. exists m'. auto.
    + split.
      * intros [H|(m' & H & E')]; [auto|]. right. exists m'. auto.
      * intros [H|(m' & [H|H] & E')]; [auto| |].
        -- inversion H; subst. congruence.
        -- right. exists m'. auto.
Qed.

(** Where a path lands is decided by [exempt] at a place it is owned. *)
Lemma elem_of_decay model x :
  x ∈ fst (decay_sets model) ↔ ∃ m, In (x, m) (owned model) ∧ exempt m x = false.
Proof.
  rewrite decay_sets_owned, classify_loop_decay. cbn [fst].
  split; [intros [H|H]; [by apply not_elem_of_empty in H|exact H] | auto].
Qed.

Lemma elem_of_no_decay model x :
  x ∈ snd (decay_sets model) ↔ ∃ m, In (x, m) (owned model) ∧ exempt m x = true.
Proof.
  rewrite decay_sets_owned, classify_loop_no_decay. cbn [snd].
  split; [intros [H|H]; [by apply not_elem_of_empty in H|exact H] | auto].
Qed.

Lemma owned_names model :
  map fst (owned model) = map fst (named_parameters model).
Proof.
  unfold owned, named_parameters, named_parameters_from, named_modules.
  rewrite !map_flat_map. apply flat_map_ext. intros [mn m].
  rewrite !map_map. reflexivity.
Qed.

Lemma In_owned model mn m pn p :
  In (mn, m) (named_modules model) → In (pn, p) (named_parameters_own m) →
  In (join_path mn pn, m) (owned model).
Proof.
  intros Hm Hp. unfold owned. apply in_flat_map. exists (mn, m). split; [exact Hm|].
  apply in_map_iff. exists (pn, p). auto.
Qed.

Lemma dom_param_dict_loop (l : list (string * Param)) : ∀ d : gmap string Param,
  dom (foldl (λ d np, <[fst np := snd np]> d) d l) = dom d ∪ list_to_set (map fst l).
Proof.
  induction l as [|[n p] l IH]; intros d; simpl.
  - rewrite (right_id_L ∅ (∪)). reflexivity.
  - rewrite IH, dom_insert_L.
    rewrite (comm_L (∪) {[n]} (dom d)), (assoc_L (∪)). reflexivity.
Qed.

Lemma dom_param_dict model :
  dom (param_dict model) = list_to_set (map fst (named_parameters model)).
Proof.
  unfold param_dict. rewrite dom_param_dict_loop, dom_empty_L.
  apply (left_id_L ∅ (∪)).
Qed.

(** Coverage: whatever the tree, the two sets together are the keys of
    [param_dict]. *)
Lemma decay_sets_union model :
  fst (decay_sets model) ∪ snd (decay_sets model) = dom (param_dict model).
Proof.
  apply set_eq. intros x.
  rewrite elem_of_union, elem_of_decay, elem_of_no_decay, dom_param_dict.
  rewrite elem_of_list_to_set, <- owned_names, list_elem_of_In, in_map_iff.
  split.
  - intros [(m & H & _)|(m & H & _)]; exists (x, m); auto.
  - intros ([y m] & <- & H). cbn [fst].
    destruct (exempt m y) eqn:E; [right|left]; exists m; auto.
Qed.

Lemma NoDup_fst_In_inj {A B} (l : list (A * B)) x y1 y2 :
  NoDup (map fst l) → In (x, y1) l → In (x, y2) l → y1 = y2.
Proof.
  induction l as [|[a b] l IH]; simpl; [intros _ []|].
  intros Hnd H1 H2. apply NoDup_cons in Hnd as [Hnot Hnd].
  rewrite list_elem_of_In in Hnot.
  destruct H1 as [H1|H1], H2 as [H2|H2]; simplify_eq.
  - reflexivity.
  - destruct Hnot. apply in_map_iff. exists (x, y2). auto.
  - destruct Hnot. apply in_map_iff. exists (x, y1). auto.
  - eauto.
Qed.

(** Disjointness, when no path is visited twice. *)
Lemma decay_sets_disjoint model :
  NoDup (map fst (owned model)) → fst (decay_sets model) ## snd (decay_sets model).
Proof.
  intros Hnd. apply elem_of_disjoint. intros x Hd Hn.
  apply elem_of_decay in Hd as (m1 & H1 & E1).
  apply elem_of_no_decay in Hn as (m2 & H2 & E2).
  rewrite (NoDup_fst_In_inj _ _ _ _ Hnd H1 H2) in E1. congruence.
Qed.

(** *** Paths of a well-formed tree are distinct *)

Lemma join_path_nonempty c r : c ≠ "" → join_path c r = c +:+ "." +:+ r.
Proof. destruct c; [congruence|reflexivity]. Qed.

Lemma join_path_assoc p c r :
  c ≠ "" → join_path (join_path p c) r = join_path p (join_path c r).
Proof.
  intros Hc. destruct p as [|a p].
  - reflexivity.
  - rewrite (join_path_nonempty c r Hc).
    change (join_path (String a p) c) with (String a p +:+ "." +:+ c).
    change (join_path (String a p) (c +:+ "." +:+ r))
      with (String a p +:+ "." +:+ c +:+ "." +:+ r).
    rewrite app_cons. cbn [join_path]. rewrite <- app_cons.
    rewrite !app_assoc. reflexivity.
Qed.

Lemma wf_name_nonempty s : wf_name s = true → s ≠ "".
Proof.
  unfold wf_name. intros H%andb_true_iff. destruct H as [H _].
  apply negb_true_iff, String.eqb_neq in H. exact H.
Qed.

Lemma wf_name_dotfree s : wf_name s = true → dotfree s = true.
Proof. unfold wf_name. intros H%andb_true_iff. tauto. Qed.

Lemma wf_module_unfold c ps ch :
  wf_module (mkModule c ps ch) = true →
  NoDup (map fst ps) ∧ Forall (λ kv, wf_name (fst kv) = true) ps ∧
  NoDup (map fst ch) ∧
  Forall (λ nc, wf_name (fst nc) = true ∧ wf_module (snd nc) = true) ch.
Proof.
  cbn [wf_module _parameters _modules].
  rewrite !andb_true_iff, !bool_decide_eq_true, !forallb_forall, !Forall_forall.
  intros [[[H1 H2] H3] H4]. repeat split; try assumption.
  - intros x Hx%list_elem_of_In. apply H2, Hx.
  - apply list_elem_of_In, H4, andb_true_iff in H. tauto.
  - apply list_elem_of_In, H4, andb_true_iff in H. tauto.
Qed.


Lemma names_from_unfold prefix m :
  names_from prefix m =
    map (join_path prefix) (map fst (_parameters m)) ++
    flat_map (λ nc, names_from (join_path prefix (fst nc)) (snd nc)) (_modules m).
Proof.
  unfold names_from. rewrite named_parameters_from_unfold.
  rewrite map_app, !map_map, map_flat_map. reflexivity.
Qed.

Lemma join_path_nil_l r : join_path "" r = r.
Proof. reflexivity. Qed.

(** Below a prefix, the paths are the paths from the root, prefixed. *)
Lemma names_from_prefix m : ∀ prefix,
  wf_module m = true →
  names_from prefix m = map (join_path prefix) (names_from "" m).
Proof.
  induction m as [c ps ch IH] using NnModule_ind'. intros prefix Hwf.
  apply wf_module_unfold in Hwf as (_ & _ & _ & Hch).
  rewrite !names_from_unfold. cbn [_parameters _modules].
  rewrite map_app. f_equal.
  - rewrite (map_ext (join_path "") id), map_id; [reflexivity|]. intros a. reflexivity.
  - rewrite map_flat_map. apply flat_map_ext_Forall.
    rewrite Forall_forall in IH, Hch. apply Forall_forall. intros [n child] Hin.
    destruct (Hch _ Hin) as [Hn Hw]. pose proof (IH _ Hin) as IHc.
    cbn [fst snd] in *. rewrite join_path_nil_l.
    rewrite (IHc (join_path prefix n) Hw), (IHc n Hw), map_map.
    apply map_ext. intros r. apply join_path_assoc, wf_name_nonempty, Hn.
Qed.

Lemma dotfree_app_dot c r : dotfree (c +:+ "." +:+ r) = false.
Proof.
  induction c as [|a c IH].
  - reflexivity.
  - rewrite app_cons. cbn [dotfree]. rewrite IH. apply andb_false_r.
Qed.

(** A dot-free first component is determined by the whole path. *)
Lemma app_dot_inj c c' r r' :
  dotfree c = true → dotfree c' = true →
  c +:+ "." +:+ r = c' +:+ "." +:+ r' → c = c' ∧ r = r'.
Proof.
  revert c'. induction c as [|a c IH]; intros [|a' c'] Hc Hc' E.
  - split; [reflexivity|]. by injection E.
  - rewrite app_cons in E. injection E as <- _.
    cbn [dotfree] in Hc'. discriminate.
  - rewrite app_cons in E. injection E as -> _.
    cbn [dotfree] in Hc. discriminate.
  - rewrite !app_cons in E. injection E as <- E.
    cbn [dotfree] in Hc, Hc'. apply andb_true_iff in Hc as [_ Hc], Hc' as [_ Hc'].
    destruct (IH c' Hc Hc' E) as [-> ->]. auto.
Qed.

Lemma NoDup_names_from m : wf_module m = true → NoDup (names_from "" m).
Proof.
  induction m as [c ps ch IH] using NnModule_ind'. intros Hwf.
  apply wf_module_unfold in Hwf as (Hps & Hpn & Hcs & Hch).
  rewrite names_from_unfold. cbn [_parameters _modules].
  rewrite (map_ext (join_path "") id), map_id by reflexivity.
  assert (Hshape : ∀ x, In x (flat_map (λ nc, names_from (join_path "" (fst nc)) (snd nc)) ch) →
            ∃ n r, In n (map fst ch) ∧ wf_name n = true ∧ x = n +:+ "." +:+ r).
  { intros x Hx. apply in_flat_map in Hx as ([n child] & Hin & Hx). cbn [fst snd] in Hx.
    rewrite Forall_forall in Hch. destruct (Hch _ (proj2 (list_elem_of_In _ _) Hin)) as [Hn Hw].
    cbn [fst snd] in *. rewrite join_path_nil_l, (names_from_prefix _ n Hw) in Hx.
    apply in_map_iff in Hx as (r & <- & _).
    exists n, r. split; [apply in_map_iff; exists (n, child); auto|].
    split; [exact Hn|]. apply join_path_nonempty, wf_name_nonempty, Hn. }
  apply NoDup_app. split; [exact Hps|]. split.
  - intros x Hx%list_elem_of_In Hx'%list_elem_of_In.
    apply Hshape in Hx' as (n & r & _ & _ & ->).
    apply in_map_iff in Hx as ([k v] & Hk & Hin). cbn [fst] in Hk.
    rewrite Forall_forall in Hpn.
    pose proof (Hpn _ (proj2 (list_elem_of_In _ _) Hin)) as Hw. cbn [fst] in Hw.
    apply wf_name_dotfree in Hw. rewrite Hk, dotfree_app_dot in Hw. discriminate.
  - clear Hshape Hps Hpn. induction ch as [|[n child] ch IHch]; [constructor|].
    apply Forall_cons in IH as [IHc IH], Hch as [[Hn Hw] Hch].
    apply NoDup_cons in Hcs as [Hfresh Hcs]. cbn [fst snd] in *.
    cbn [flat_map fst snd]. apply NoDup_app. split; [|split].
    + rewrite join_path_nil_l, (names_from_prefix _ n Hw).
      apply NoDup_fmap_2_strong; [|apply IHc, Hw].
      intros r r' _ _ E. rewrite !(join_path_nonempty n) in E by (apply wf_name_nonempty, Hn).
      apply app_dot_inj in E; [tauto| |]; apply wf_name_dotfree, Hn.
    + intros x Hx%list_elem_of_In Hx'%list_elem_of_In.
      rewrite join_path_nil_l, (names_from_prefix _ n Hw) in Hx.
      apply in_map_iff in Hx as (r & <- & _).
      apply in_flat_map in Hx' as ([n' child'] & Hin' & Hx'). cbn [fst snd] in Hx'.
      rewrite Forall_forall in Hch.
      destruct (Hch _ (proj2 (list_elem_of_In _ _) Hin')) as [Hn' Hw']. cbn [fst snd] in *.
      rewrite join_path_nil_l, (names_from_prefix _ n' Hw') in Hx'.
      apply in_map_iff in Hx' as (r' & E & _).
      rewrite !join_path_nonempty in E by (apply wf_name_nonempty; assumption).
      apply app_dot_inj in E as [-> _]; [|apply wf_name_dotfree; assumption..].
      apply Hfresh, list_elem_of_In, in_map_iff. exists (n, child'). auto.
    + apply IHch; assumption.
Qed.

(** In a well-formed tree no path is visited twice. *)
Lemma NoDup_owned model :
  wf_module model = true → NoDup (map fst (owned model)).
Proof.
  intros Hwf. rewrite owned_names. apply (NoDup_names_from model Hwf).
Qed.

(** *** The optimizer that is built *)

Lemma In_sorted (s : gset string) n : In n (sorted s) ↔ n ∈ s.
Proof.
  unfold sorted. rewrite <- list_elem_of_In, merge_sort_Permutation.
  apply elem_of_elements.
Qed.

Lemma Sorted_sorted (s : gset string) : Sorted String.le (sorted s).
Proof. apply (Sorted_merge_sort String.le). Qed.

Lemma NoDup_sorted (s : gset string) : NoDup (sorted s).
Proof.
  unfold sorted. rewrite merge_sort_Permutation. apply NoDup_elements.
Qed.

Lemma param_dict_loop_lookup (l : list (string * Param)) n p :
  ∀ d : gmap string Param,
  foldl (λ d np, <[fst np := snd np]> d) d l !! n = Some p →
  d !! n = Some p ∨ In (n, p) l.
Proof.
  induction l as [|[k v] l IH]; intros d; simpl; [auto|].
  intros H. apply IH in H as [H|H]; [|auto].
  destruct (decide (k = n)) as [->|Hne].
  - rewrite lookup_insert_eq in H. injection H as ->. auto.
  - rewrite lookup_insert_ne in H by exact Hne. auto.
Qed.

Lemma param_dict_lookup model n p :
  param_dict model !! n = Some p → In (n, p) (named_parameters model).
Proof.
  intros H. apply param_dict_loop_lookup in H as [H|H]; [|exact H].
  rewrite lookup_empty in H. discriminate.
Qed.

Lemma lookup_all_ok (d : gmap string Param) names :
  (∀ n, In n names → n ∈ dom d) →
  ∃ ps, lookup_all d names = Ok ps ∧ Forall2 (λ n p, d !! n = Some p) names ps.
Proof.
  induction names as [|n names IH]; intros H; simpl.
  - exists []. split; [reflexivity|constructor].
  - destruct (IH (λ k Hk, H k (or_intror Hk))) as (ps & E & F).
    assert (Hn : n ∈ dom d) by (apply H; left; reflexivity).
    apply elem_of_dom in Hn as [p Hp]. rewrite Hp, E. simpl.
    exists (p :: ps). split; [reflexivity|]. constructor; assumption.
Qed.

Lemma lookup_all_group model s :
  s ⊆ dom (param_dict model) →
  ∃ ps, lookup_all (param_dict model) (sorted s) = Ok ps ∧ group_of model s ps.
Proof.
  intros Hsub.
  destruct (lookup_all_ok (param_dict model) (sorted s)) as (ps & E & F).
  { intros n Hn%In_sorted. apply Hsub, Hn. }
  exists ps. split; [exact E|]. exists (sorted s).
  split; [apply Sorted_sorted|]. split; [apply NoDup_sorted|].
  split; [apply In_sorted|].
  eapply Forall2_impl; [exact F|]. intros n p. apply param_dict_lookup.
Qed.

Lemma optim_construct_groups reg opt_name ps1 ps2 (kwargs : gmap string Q) :
  name_in opt_name (optimizers reg) = true →
  optim_construct reg opt_name
    (Groups [mkParamGroup ps1 kwargs;
             mkParamGroup ps2 (<["weight_decay" := 0%Q]> kwargs)]) kwargs =
  Ok (mkOptimizer opt_name
        [mkParamGroup ps1 kwargs;
         mkParamGroup ps2 (<["weight_decay" := 0%Q]> kwargs)] kwargs).
Proof.
  intros H. unfold optim_construct. rewrite H. cbn [map params settings].
  rewrite <- insert_union_l, (idemp_L (∪) kwargs). reflexivity.
Qed.

(** With a nonzero [weight_decay], the two assertions are all that stands
    between the sets and the optimizer. *)
Lemma configure_optimizer_nonzero reg model opt_name (opt_params : gmap string Q) wd :
  opt_params !! "weight_decay" = Some wd → Qeq_bool wd 0 = false →
  configure_optimizer reg model opt_name opt_params =
    let decay := fst (decay_sets model) in
    let no_decay := snd (decay_sets model) in
    if negb (size (decay ∩ no_decay) =? 0)%nat then
      Raise (AssertionError "Overlapping decay and no decay")
    else if negb (size (dom (param_dict model) ∖ (decay ∪ no_decay)) =? 0)%nat then
      Raise (AssertionError "Missing decay parameters")
    else
      rbind (lookup_all (param_dict model) (sorted decay)) (λ decay_params,
      rbind (lookup_all (param_dict model) (sorted no_decay)) (λ no_decay_params,
        optim_construct reg opt_name
          (Groups [mkParamGroup decay_params opt_params;
                   mkParamGroup no_decay_params
                                (<["weight_decay" := 0%Q]> opt_params)])
          opt_params)).
Proof.
  intros Hwd Hnz. unfold configure_optimizer. rewrite Hwd, Hnz.
  destruct (decay_sets model) as [decay no_decay]. reflexivity.
Qed.

Lemma size_inter_zero (X Y : gset string) :
  (size (X ∩ Y) =? 0)%nat = true ↔ X ## Y.
Proof.
  rewrite Nat.eqb_eq, size_empty_iff, disjoint_intersection. reflexivity.
Qed.

Lemma size_diff_zero (X Y : gset string) :
  (size (X ∖ Y) =? 0)%nat = true ↔ X ⊆ Y.
Proof.
  rewrite Nat.eqb_eq, size_empty_iff. split.
  - intros H x Hx. destruct (decide (x ∈ Y)) as [|Hn]; [assumption|].
    exfalso. apply (not_elem_of_empty (C:=gset string) x). apply H.
    apply elem_of_difference. auto.
  - intros H. apply elem_of_equiv_empty. intros x [Hx Hn]%elem_of_difference.
    apply Hn, H, Hx.
Qed.




(** C5. Without a [weight_decay] entry, or with one that is zero, the
    optimizer has one group: all the parameters of the model, with the
    settings as configured. *)
Theorem configure_optimizer_no_decay reg model opt_name (opt_params : gmap string Q) :
  name_in opt_name (optimizers reg) = true →
  (opt_params !! "weight_decay" = None ∨
   ∃ wd, opt_params !! "weight_decay" = Some wd ∧ Qeq_bool wd 0 = true) →
  configure_optimizer reg model opt_name opt_params =
    Ok (mkOptimizer opt_name
          [mkParamGroup (map snd (named_parameters model)) opt_params]
          opt_params).
Proof.
  intros Hname [Hwd|(wd & Hwd & Hz)]; unfold configure_optimizer; rewrite Hwd;
    [|rewrite Hz]; unfold optim_construct; rewrite Hname; reflexivity.
Qed.

(** [ex_model] with no [weight_decay] entry. *)
Lemma configure_optimizer_no_decay_witness :
  name_in "SGD" (optimizers ex_registry) = true ∧
  (<["lr" := 1 # 100]> ∅ : gmap string Q) !! "weight_decay" = None ∧
  configure_optimizer ex_registry ex_model "SGD" (<["lr" := 1 # 100]> ∅) =
    Ok (mkOptimizer "SGD"
          [mkParamGroup (map snd (named_parameters ex_model)) (<["lr" := 1 # 100]> ∅)]
          (<["lr" := 1 # 100]> ∅)).
Proof.
  assert (H1 : name_in "SGD" (optimizers ex_registry) = true)
    by (vm_compute; reflexivity).
  assert (H2 : (<["lr" := 1 # 100]> ∅ : gmap string Q) !! "weight_decay" = None)
    by (vm_compute; reflexivity).
  split; [exact H1|]. split; [exact H2|].
  exact (configure_optimizer_no_decay ex_registry ex_model "SGD"
           (<["lr" := 1 # 100]> ∅) H1 (or_introl H2)).
Defined.


(** C6. With a nonzero [weight_decay] on a well-formed tree the optimizer
    has exactly two groups: the parameters of the decay set and those of
    the no-decay set, each in the order of their sorted paths; the first
    group has the configured settings and the second has them with
    [weight_decay] replaced by 0. *)
Theorem configure_optimizer_groups reg model opt_name
    (opt_params : gmap string Q) wd :
  wf_module model = true → name_in opt_name (optimizers reg) = true →
  opt_params !! "weight_decay" = Some wd → Qeq_bool wd 0 = false →
  ∃ decay_params no_decay_params,
    configure_optimizer reg model opt_name opt_params =
      Ok (mkOptimizer opt_name
            [mkParamGroup decay_params opt_params;
             mkParamGroup no_decay_params (<["weight_decay" := 0%Q]> opt_params)]
            opt_params) ∧
    group_of model (fst (decay_sets model)) decay_params ∧
    group_of model (snd (decay_sets model)) no_decay_params ∧
    (<["weight_decay" := 0%Q]> opt_params) !! "weight_decay" = Some 0%Q ∧
    (∀ k, k ≠ "weight_decay" →
       (<["weight_decay" := 0%Q]> opt_params) !! k = opt_params !! k).
Proof.
  intros Hwf Hname Hwd Hnz.
  rewrite (configure_optimizer_nonzero reg model opt_name opt_params wd Hwd Hnz).
  cbn zeta.
  pose proof (decay_sets_union model) as Hunion.
  pose proof (decay_sets_disjoint model (NoDup_owned model Hwf)) as Hdisj.
  rewrite (proj2 (size_inter_zero _ _) Hdisj).
  rewrite (proj2 (size_diff_zero _ _)) by (rewrite Hunion; reflexivity).
  cbn [negb].
  destruct (lookup_all_group model (fst (decay_sets model))) as (ps1 & -> & G1).
  { rewrite <- Hunion. apply union_subseteq_l. }
  destruct (lookup_all_group model (snd (decay_sets model))) as (ps2 & -> & G2).
  { rewrite <- Hunion. apply union_subseteq_r. }
  cbn [rbind]. rewrite optim_construct_groups by exact Hname.
  exists ps1, ps2. split; [reflexivity|]. split; [exact G1|]. split; [exact G2|].
  split; [apply lookup_insert_eq|]. intros k Hk. apply lookup_insert_ne. congruence.
Qed.

(** The two groups of [ex_model] with [weight_decay = 1/10]. *)
Lemma configure_optimizer_groups_witness :
  wf_module ex_model = true ∧ name_in "AdamW" (optimizers ex_registry) = true ∧
  ex_opt_params !! "weight_decay" = Some (1 # 10) ∧ Qeq_bool (1 # 10) 0 = false ∧
  ∃ decay_params no_decay_params,
    configure_optimizer ex_registry ex_model "AdamW" ex_opt_params =
      Ok (mkOptimizer "AdamW"
            [mkParamGroup decay_params ex_opt_params;
             mkParamGroup no_decay_params (<["weight_decay" := 0%Q]> ex_opt_params)]
            ex_opt_params) ∧
    group_of ex_model (fst (decay_sets ex_model)) decay_params ∧
    group_of ex_model (snd (decay_sets ex_model)) no_decay_params.
Proof.
  assert (H1 : wf_module ex_model = true) by (vm_compute; reflexivity).
  assert (H2 : name_in "AdamW" (optimizers ex_registry) = true)
    by (vm_compute; reflexivity).
  assert (H3 : ex_opt_params !! "weight_decay" = Some (1 # 10))
    by (vm_compute; reflexivity).
  assert (H4 : Qeq_bool (1 # 10) 0 = false) by reflexivity.
  split; [exact H1|]. split; [exact H2|]. split; [exact H3|]. split; [exact H4|].
  destruct (configure_optimizer_groups ex_registry ex_model "AdamW" ex_opt_params
              (1 # 10) H1 H2 H3 H4) as (ps1 & ps2 & E & G1 & G2 & _).
  exists ps1, ps2. split; [exact E|]. split; [exact G1|exact G2].
Defined.


(** *** Where each parameter lands *)

Lemma eqb_length x s : String.eqb x s = true → String.length x = String.length s.
Proof. intros H%String.eqb_eq. congruence. Qed.

Lemma length_app a b : String.length (a +:+ b) = (String.length a + String.length b)%nat.
Proof.
  induction a as [|c a IH]; [reflexivity|].
  rewrite app_cons. cbn [String.length]. rewrite IH. reflexivity.
Qed.

(** A suffix no longer than [b] is a suffix of [a +:+ b] only as one of [b]. *)
Lemma endswith_app_short a b s :
  (String.length s ≤ String.length b)%nat →
  endswith (a +:+ b) s = endswith b s.
Proof.
  intros Hlen. induction a as [|c a IH]; [reflexivity|].
  rewrite app_cons.
  change (String.eqb (String c (a +:+ b)) s || endswith (a +:+ b) s = endswith b s).
  rewrite IH. destruct (String.eqb (String c (a +:+ b)) s) eqn:E; [|reflexivity].
  apply eqb_length in E. cbn [String.length] in E. rewrite length_app in E. lia.
Qed.

Lemma endswith_weight_not_bias mn :
  endswith (join_path mn "weight") "bias" = false.
Proof.
  destruct mn as [|c mn]; [reflexivity|]. unfold join_path.
  rewrite endswith_app_short; [reflexivity|]. apply Nat.leb_le. reflexivity.
Qed.

(** C2, as the code has it.  The tests are on the end of the path: a path
    that ends with [bias] lands in no-decay whatever the module, a path that
    ends with [weight] and is owned by a [BatchNorm2d] lands in no-decay, and
    every other path lands in decay.  So a leaf [bias] lands in no-decay, a
    leaf [weight] lands in no-decay under a [BatchNorm2d] and in decay under
    any other module; on a well-formed tree no path lands in both. *)
Theorem decay_sets_classification model mn m pn p :
  In (mn, m) (named_modules model) → In (pn, p) (named_parameters_own m) →
  let full_name := join_path mn pn in
  let decay := fst (decay_sets model) in
  let no_decay := snd (decay_sets model) in
  (endswith full_name "bias" = true → full_name ∈ no_decay) ∧
  (endswith full_name "weight" = true → isinstance_blacklist m = true →
     full_name ∈ no_decay) ∧
  (endswith full_name "bias" = false →
   endswith full_name "weight" = false ∨ isinstance_blacklist m = false →
     full_name ∈ decay) ∧
  (pn = "bias" → full_name ∈ no_decay) ∧
  (pn = "weight" → isinstance_blacklist m = true → full_name ∈ no_decay) ∧
  (pn = "weight" → isinstance_blacklist m = false → full_name ∈ decay) ∧
  (wf_module model = true → ¬ (full_name ∈ decay ∧ full_name ∈ no_decay)).
Proof.
  intros Hm Hp full_name decay no_decay.
  pose proof (In_owned model mn m pn p Hm Hp) as Hown. fold full_name in Hown.
  assert (Hbias : endswith full_name "bias" = true → full_name ∈ no_decay).
  { intros E. apply elem_of_no_decay. exists m. split; [exact Hown|].
    unfold exempt. rewrite E. reflexivity. }
  assert (Hbn : endswith full_name "weight" = true → isinstance_blacklist m = true →
                full_name ∈ no_decay).
  { intros E B. apply elem_of_no_decay. exists m. split; [exact Hown|].
    unfold exempt. rewrite E, B. apply orb_true_r. }
  assert (Hdecay : endswith full_name "bias" = false →
            endswith full_name "weight" = false ∨ isinstance_blacklist m = false →
            full_name ∈ decay).
  { intros E W. apply elem_of_decay. exists m. split; [exact Hown|].
    unfold exempt. rewrite E. destruct W as [-> | ->]; [reflexivity|].
    apply andb_false_r. }
  repeat split; try assumption.
  - intros ->. apply Hbias, endswith_join_path.
  - intros -> B. apply Hbn; [apply endswith_join_path|exact B].
  - intros -> B. apply Hdecay; [apply endswith_weight_not_bias|auto].
  - intros Hwf [Hd Hn].
    pose proof (decay_sets_disjoint model (NoDup_owned model Hwf)) as Hdisj.
    apply (proj1 (elem_of_disjoint _ _) Hdisj full_name); assumption.
Qed.

(** [head.in_proj_bias] of [ex_model] ends with [bias]. *)
Lemma decay_sets_classification_witness :
  In ("head", ex_head) (named_modules ex_model) ∧
  In ("in_proj_bias", ex_param) (named_parameters_own ex_head) ∧
  endswith (join_path "head" "in_proj_bias") "bias" = true ∧
  (join_path "head" "in_proj_bias" ∈ snd (decay_sets ex_model)).
Proof.
  assert (H1 : In ("head", ex_head) (named_modules ex_model))
    by (vm_compute; tauto).
  assert (H2 : In ("in_proj_bias", ex_param) (named_parameters_own ex_head))
    by (vm_compute; tauto).
  assert (H3 : endswith (join_path "head" "in_proj_bias") "bias" = true)
    by reflexivity.
  split; [exact H1|]. split; [exact H2|]. split; [exact H3|].
  exact (proj1 (decay_sets_classification ex_model "head" ex_head "in_proj_bias"
                  ex_param H1 H2) H3).
Defined.


(** C2 as stated fails: [in_proj_bias] of the attention head of [ex_model]
    is neither a leaf [bias] nor a [weight] of a normalization module, and it
    lands in no-decay, not in decay. *)
Lemma leaf_name_counterexample :
  In ("head", ex_head) (named_modules ex_model) ∧
  In ("in_proj_bias", ex_param) (named_parameters_own ex_head) ∧
  "in_proj_bias" ≠ "bias" ∧ "in_proj_bias" ≠ "weight" ∧
  isinstance_blacklist ex_head = false ∧
  wf_module ex_model = true ∧
  (join_path "head" "in_proj_bias" ∉ fst (decay_sets ex_model)) ∧
  (join_path "head" "in_proj_bias" ∈ snd (decay_sets ex_model)).
Proof.
  split; [vm_compute; tauto|]. split; [vm_compute; tauto|].
  split; [discriminate|]. split; [discriminate|].
  split; [reflexivity|]. split; [vm_compute; reflexivity|].
  split.
  - apply (bool_decide_unpack _). vm_compute. exact I.
  - apply (bool_decide_unpack _). vm_compute. exact I.
Qed.

(** The first assertion is live: on a tree with two children of one name
    the same path lands in both sets and the call fails. *)
Lemma configure_optimizer_overlap_example :
  wf_module ex_clash = false ∧
  configure_optimizer ex_registry ex_clash "AdamW" ex_opt_params =
    Raise (AssertionError "Overlapping decay and no decay").
Proof. split; vm_compute; reflexivity. Qed.

(** ** The driver *)

Lemma fst_run_bind {A B} (m : Run A) (k : A → Run B) :
  fst (run_bind m k) =
    fst m ++ match snd m with Ok a => fst (k a) | Raise _ => [] end.
Proof.
  destruct m as [t [a|e]]; simpl.
  - destruct (k a). reflexivity.
  - rewrite app_nil_r. reflexivity.
Qed.

Lemma snd_run_bind {A B} (m : Run A) (k : A → Run B) :
  snd (run_bind m k) = match snd m with Ok a => snd (k a) | Raise e => Raise e end.
Proof.
  destruct m as [t [a|e]]; simpl; [|reflexivity]. destruct (k a). reflexivity.
Qed.

(** A property of every event of a run passes through [bind]. *)
Lemma Forall_run_bind {A B} (P : Event → Prop) (m : Run A) (k : A → Run B) :
  Forall P (fst m) → (∀ a, snd m = Ok a → Forall P (fst (k a))) →
  Forall P (fst (run_bind m k)).
Proof.
  intros Hm Hk. rewrite fst_run_bind. apply Forall_app. split; [exact Hm|].
  destruct (snd m) as [a|e]; [apply Hk; reflexivity|constructor].
Qed.

Ltac run_unfold := unfold mbind, Run_bind, mret, Run_ret.

(** Every event of a run of [main] is of one of three kinds: a loader
    constructed with [TRAIN.workers] workers, a checkpoint written with a
    scaler at hand, or an event that is neither.  A property that holds of
    the three kinds holds of every event of the run. *)
Section Events.
Variable P : Event → Prop.
Variable w : World.
Variable config : Config.
Hypothesis P_other : ∀ e, not_loader e → not_save e → P e.
Hypothesis P_loader :
  ∀ dl, num_workers dl = TRAIN_workers config → P (EvDataLoader dl).
Hypothesis P_save : ∀ st f, TRAIN_amp config = true → P (EvSaveCheckpoint st f).

Local Ltac one_event := repeat constructor; apply P_other; exact I.

Lemma build_augmentations_events augs :
  Forall P (fst (build_augmentations (registry w) augs)).
Proof.
  induction augs as [|a augs IH]; [constructor|].
  cbn [build_augmentations]. run_unfold.
  apply Forall_run_bind.
  - unfold assert_. destruct (_ || _); constructor.
  - intros _ _. apply Forall_run_bind; [|intros; exact IH].
    destruct (String.eqb a "CopyPaste"); [constructor|one_event].
Qed.

Lemma add_datasets_events dirs : ∀ len, Forall P (fst (add_datasets w dirs len)).
Proof.
  induction dirs as [|d dirs IH]; intros len; [constructor|].
  cbn [add_datasets]. run_unfold. apply Forall_run_bind; [one_event|].
  intros _ _. apply IH.
Qed.

Lemma build_dataset_events : Forall P (fst (build_dataset w config)).
Proof.
  unfold build_dataset. run_unfold. apply Forall_run_bind; [one_event|].
  intros _ _. destruct (TRAIN_additional_train_dirs config).
  - apply add_datasets_events.
  - constructor.
Qed.

Lemma build_loader_events len : Forall P (fst (build_loader config len)).
Proof.
  unfold build_loader. run_unfold. apply Forall_run_bind.
  - destruct (TRAIN_batch_size config =? 0); constructor.
  - intros _ _. apply Forall_run_bind.
    + repeat constructor. apply P_loader. reflexivity.
    + intros; constructor.
Qed.

Lemma build_scheduler_events dl : Forall P (fst (build_scheduler config dl)).
Proof.
  unfold build_scheduler. run_unfold. apply Forall_run_bind.
  - destruct (schedule_steps_per_epoch config) as [n|]; [|constructor].
    destruct (negb _); [|constructor].
    apply Forall_run_bind; [one_event|intros; constructor].
  - intros steps _. apply Forall_run_bind; [one_event|]. intros; constructor.
Qed.

Lemma epoch_loop_events model opt sch scaler n :
  (scaler ≠ None → TRAIN_amp config = true) →
  ∀ epoch, Forall P (fst (epoch_loop config model opt sch scaler n epoch)).
Proof.
  intros Hscaler. induction n as [|n IH]; intros epoch; [constructor|].
  cbn [epoch_loop]. run_unfold. apply Forall_run_bind; [one_event|].
  intros _ _. apply Forall_run_bind.
  - destruct (TRAIN_save_freq config =? 0); constructor.
  - intros save_now _. apply Forall_run_bind; [|intros; apply IH].
    destruct save_now; [|constructor].
    apply Forall_run_bind.
    + destruct scaler; constructor.
    + intros st Hst. repeat constructor. apply P_save, Hscaler.
      destruct scaler; discriminate.
Qed.

Lemma main_worker_events : Forall P (fst (main_worker w config)).
Proof.
  unfold main_worker. run_unfold.
  apply Forall_run_bind; [one_event|]. intros _ _.
  apply Forall_run_bind; [destruct (name_in _ _); constructor|]. intros _ _.
  destruct (freeze_encoder _ _) as [model frozen].
  apply Forall_run_bind; [constructor|]. intros _ _.
  apply Forall_run_bind; [one_event|]. intros _ _.
  apply Forall_run_bind; [apply build_augmentations_events|]. intros _ _.
  apply Forall_run_bind; [apply build_dataset_events|]. intros len _.
  apply Forall_run_bind; [apply build_loader_events|]. intros dl _.
  apply Forall_run_bind; [one_event|]. intros _ _.
  apply Forall_run_bind; [constructor|]. intros opt _.
  apply Forall_run_bind; [one_event|]. intros _ _.
  apply Forall_run_bind; [apply build_scheduler_events|]. intros sch _.
  apply Forall_run_bind.
  { destruct (TRAIN_amp config); [|constructor].
    apply Forall_run_bind; [one_event|intros; constructor]. }
  intros scaler Hscaler.
  apply Forall_run_bind.
  { destruct (schedule_epochs config); [constructor|].
    destruct (TRAIN_epochs config); constructor. }
  intros epochs _.
  apply epoch_loop_events. intros Hs.
  destruct (TRAIN_amp config); [reflexivity|].
  simpl in Hscaler. injection Hscaler as <-. congruence.
Qed.

Lemma main_events : Forall P (fst (main w config)).
Proof.
  unfold main. run_unfold.
  apply Forall_run_bind; [destruct (negb _); [one_event|constructor]|].
  intros _ _.
  apply Forall_run_bind; [unfold assert_; destruct (name_in _ _); constructor|].
  intros _ _.
  apply Forall_run_bind; [unfold assert_; destruct (name_in _ _); constructor|].
  intros _ _.
  apply Forall_run_bind; [unfold assert_; destruct (name_in _ _); constructor|].
  intros _ _.
  apply main_worker_events.
Qed.

End Events.

(** C10. The loader is built with [num_workers = TRAIN.workers]: by
    [build_loader] whenever the batch size is not zero, and so in every
    run of [main]; the cap computed before it plays no part, and the workers
    can be more than the batches of the dataset. *)
Theorem loader_workers_uncapped :
  (∀ config len, TRAIN_batch_size config ≠ 0 →
     ∃ dl, build_loader config len = ([EvDataLoader dl], Ok dl) ∧
           num_workers dl = TRAIN_workers config ∧
           dl = mkDataLoader len (TRAIN_batch_size config) true
                             (TRAIN_workers config) true) ∧
  (∀ w config dl, In (EvDataLoader dl) (fst (main w config)) →
     num_workers dl = TRAIN_workers config) ∧
  (∃ dl, In (EvDataLoader dl) (fst (main ex_world ex_config)) ∧
         loader_len dl < num_workers dl ∧
         Z.of_nat (dl_dataset_len dl) / TRAIN_batch_size ex_config
           < num_workers dl).
Proof.
  split; [|split].
  - intros config len Hbs.
    exists (mkDataLoader len (TRAIN_batch_size config) true (TRAIN_workers config) true).
    split; [|split; reflexivity].
    unfold build_loader. apply Z.eqb_neq in Hbs. rewrite Hbs. reflexivity.
  - intros w config dl Hin.
    pose proof (main_events
      (λ e, match e with
            | EvDataLoader dl => num_workers dl = TRAIN_workers config
            | _ => True
            end) w config) as H.
    rewrite Forall_forall in H.
    apply (H (λ e, match e with EvDataLoader _ => λ F, match F with end
                              | _ => λ _ _, I end)
             (λ _ E, E) (λ _ _ _, I) (EvDataLoader dl)).
    apply list_elem_of_In, Hin.
  - exists (mkDataLoader 64 16 true 8 true). split; [|split].
    + vm_compute. tauto.
    + reflexivity.
    + reflexivity.
Qed.

(** *** Validation of the names *)

Lemma filter_allocates_mkdir w config l :
  List.filter allocates (mkdir_events w config ++ l) = List.filter allocates l.
Proof. unfold mkdir_events. destruct (negb _); reflexivity. Qed.

Lemma main_names_rejected w config :
  name_in (TRAIN_lr_schedule config) (schedules (registry w)) = false ∨
  name_in (TRAIN_optimizer config) (optimizers (registry w)) = false ∨
  name_in (TRAIN_criterion config) (loss_names (registry w)) = false →
  main w config = (mkdir_events w config, Raise (AssertionError "")).
Proof.
  intros H. unfold main, mkdir_events, assert_. run_unfold.
  destruct (name_in (TRAIN_lr_schedule config) _);
    [destruct (name_in (TRAIN_optimizer config) _);
      [destruct (name_in (TRAIN_criterion config) _);
        [destruct H as [H|[H|H]]; discriminate|]|]|];
    destruct (negb _); reflexivity.
Qed.

Lemma main_names_accepted w config :
  name_in (TRAIN_lr_schedule config) (schedules (registry w)) = true →
  name_in (TRAIN_optimizer config) (optimizers (registry w)) = true →
  name_in (TRAIN_criterion config) (loss_names (registry w)) = true →
  main w config =
    (mkdir_events w config ++ fst (main_worker w config), snd (main_worker w config)).
Proof.
  intros H1 H2 H3. unfold main, mkdir_events, assert_. run_unfold.
  rewrite H1, H2, H3.
  destruct (main_worker w config) as [t r]. destruct (negb _); reflexivity.
Qed.

Lemma freeze_encoder_rejected S model :
  S ≠ "none" → S ≠ "all" → ¬ In S valid_layers →
  snd (freeze_encoder S model) = Raise (AssertionError "").
Proof.
  intros Hnone%String.eqb_neq Hall%String.eqb_neq Hin%name_in_false.
  unfold freeze_encoder. rewrite Hnone, Hall, Hin. reflexivity.
Qed.

Lemma freeze_encoder_accepted S model :
  S = "none" ∨ S = "all" ∨ In S valid_layers →
  snd (freeze_encoder S model) = Ok tt.
Proof.
  intros H. unfold freeze_encoder.
  destruct (String.eqb S "none") eqn:E1; [reflexivity|].
  destruct (String.eqb S "all") eqn:E2; [reflexivity|].
  destruct (name_in S valid_layers) eqn:E3; [reflexivity|].
  apply String.eqb_neq in E1, E2. apply name_in_false in E3. tauto.
Qed.

Lemma main_worker_freeze_rejected w config e :
  name_in (TRAIN_dataset_class config) (datasets (registry w)) = true →
  snd (freeze_encoder (TRAIN_finetune_layer config)
                      (hub_load w (TRAIN_whole_pretraining config))) = Raise e →
  main_worker w config = ([EvLoadModel (TRAIN_whole_pretraining config)], Raise e).
Proof.
  intros Hds Hfr. unfold main_worker. run_unfold. rewrite Hds.
  destruct (freeze_encoder _ _) as [model frozen]. cbn [snd] in Hfr. subst frozen.
  reflexivity.
Qed.

Lemma build_augmentations_rejected reg good bad rest :
  Forall (λ a, name_in a (augmentations reg) = true ∧ a ≠ "CopyPaste") good →
  name_in bad (augmentations reg) = false → bad ≠ "CopyPaste" →
  build_augmentations reg (good ++ bad :: rest) =
    (map EvAugmentation good,
     Raise (AssertionError (bad +:+ " is not a valid albumentations augmentation!"))).
Proof.
  intros Hgood Hbad Hcp%String.eqb_neq.
  induction Hgood as [|a good [Ha Hne%String.eqb_neq] _ IH].
  - cbn [app build_augmentations]. unfold assert_. run_unfold.
    rewrite Hbad, Hcp. reflexivity.
  - cbn [app build_augmentations]. unfold assert_. run_unfold.
    rewrite Ha, Hne, IH. reflexivity.
Qed.

Lemma main_worker_augmentation_rejected w config t e :
  name_in (TRAIN_dataset_class config) (datasets (registry w)) = true →
  snd (freeze_encoder (TRAIN_finetune_layer config)
                      (hub_load w (TRAIN_whole_pretraining config))) = Ok tt →
  build_augmentations (registry w) (TRAIN_augmentations config) = (t, Raise e) →
  ∃ n, main_worker w config =
         (EvLoadModel (TRAIN_whole_pretraining config) :: EvPrintTrainable n :: t,
          Raise e).
Proof.
  intros Hds Hfr Haug. unfold main_worker. run_unfold. rewrite Hds, Haug.
  destruct (freeze_encoder _ _) as [model frozen]. cbn [snd] in Hfr. subst frozen.
  exists (num_trainable model). reflexivity.
Qed.

Lemma filter_allocates_augmentations l :
  List.filter allocates (map EvAugmentation l) = [].
Proof. induction l as [|a l IH]; [reflexivity|exact IH]. Qed.

(** C4, as the code has it.  An unknown schedule, optimizer or criterion
    stops [main] with an assertion failure before anything is created.  An
    unknown freeze stage or augmentation stops the run with an assertion
    failure only inside [main_worker]: the pretrained model has been loaded
    by then, and it is the only thing created; only the augmentation
    failure has a message. *)
Theorem main_validation w config :
  (name_in (TRAIN_lr_schedule config) (schedules (registry w)) = false ∨
   name_in (TRAIN_optimizer config) (optimizers (registry w)) = false ∨
   name_in (TRAIN_criterion config) (loss_names (registry w)) = false →
     snd (main w config) = Raise (AssertionError "") ∧
     List.filter allocates (fst (main w config)) = []) ∧
  (name_in (TRAIN_lr_schedule config) (schedules (registry w)) = true →
   name_in (TRAIN_optimizer config) (optimizers (registry w)) = true →
   name_in (TRAIN_criterion config) (loss_names (registry w)) = true →
   name_in (TRAIN_dataset_class config) (datasets (registry w)) = true →
     (TRAIN_finetune_layer config ≠ "none" → TRAIN_finetune_layer config ≠ "all" →
      ¬ In (TRAIN_finetune_layer config) valid_layers →
        snd (main w config) = Raise (AssertionError "") ∧
        List.filter allocates (fst (main w config)) =
          [EvLoadModel (TRAIN_whole_pretraining config)]) ∧
     (∀ good bad rest,
        TRAIN_finetune_layer config = "none" ∨ TRAIN_finetune_layer config = "all" ∨
          In (TRAIN_finetune_layer config) valid_layers →
        TRAIN_augmentations config = good ++ bad :: rest →
        Forall (λ a, name_in a (augmentations (registry w)) = true ∧ a ≠ "CopyPaste")
               good →
        name_in bad (augmentations (registry w)) = false → bad ≠ "CopyPaste" →
        snd (main w config) =
          Raise (AssertionError
                   (bad +:+ " is not a valid albumentations augmentation!")) ∧
        List.filter allocates (fst (main w config)) =
          [EvLoadModel (TRAIN_whole_pretraining config)])).
Proof.
  split.
  - intros H. rewrite (main_names_rejected w config H). cbn [fst snd].
    split; [reflexivity|].
    rewrite <- (app_nil_r (mkdir_events w config)). apply filter_allocates_mkdir.
  - intros H1 H2 H3 Hds. rewrite (main_names_accepted w config H1 H2 H3).
    cbn [fst snd]. rewrite filter_allocates_mkdir. split.
    + intros Hnone Hall Hin.
      rewrite (main_worker_freeze_rejected w config (AssertionError "") Hds
                 (freeze_encoder_rejected _ _ Hnone Hall Hin)).
      split; reflexivity.
    + intros good bad rest Hsel Haugs Hgood Hbad Hcp.
      destruct (main_worker_augmentation_rejected w config (map EvAugmentation good)
                  (AssertionError (bad +:+ " is not a valid albumentations augmentation!"))
                  Hds (freeze_encoder_accepted _ _ Hsel)) as [n ->].
      { rewrite Haugs. apply build_augmentations_rejected; assumption. }
      cbn [fst snd]. split; [reflexivity|].
      cbn [List.filter allocates]. rewrite filter_allocates_augmentations. reflexivity.
Qed.

(** An unknown schedule, an unknown stage and an unknown augmentation. *)
Lemma main_validation_witness :
  (name_in "Nope" (schedules (registry ex_world)) = false ∧
   snd (main ex_world (with_lr_schedule "Nope" ex_config)) =
     Raise (AssertionError "") ∧
   List.filter allocates (fst (main ex_world (with_lr_schedule "Nope" ex_config))) =
     []) ∧
  (¬ In "stage5" ("none" :: "all" :: valid_layers) ∧
   snd (main ex_world (with_finetune_layer "stage5" ex_config)) =
     Raise (AssertionError "") ∧
   List.filter allocates
     (fst (main ex_world (with_finetune_layer "stage5" ex_config))) =
     [EvLoadModel "https://example.org/model.pth"]) ∧
  (name_in "Nope" (augmentations (registry ex_world)) = false ∧
   snd (main ex_world (with_augmentations ["Flip"; "Nope"] ex_config)) =
     Raise (AssertionError "Nope is not a valid albumentations augmentation!") ∧
   List.filter allocates
     (fst (main ex_world (with_augmentations ["Flip"; "Nope"] ex_config))) =
     [EvLoadModel "https://example.org/model.pth"]).
Proof.
  assert (Hs : name_in (TRAIN_lr_schedule (with_lr_schedule "Nope" ex_config))
                       (schedules (registry ex_world)) = false)
    by (vm_compute; reflexivity).
  assert (Hn : ¬ In "stage5" ("none" :: "all" :: valid_layers)).
  { simpl. intros H. repeat (destruct H as [H|H]; [discriminate|]). exact H. }
  assert (Ha : name_in "Nope" (augmentations (registry ex_world)) = false)
    by (vm_compute; reflexivity).
  split; [|split].
  - split; [exact Hs|].
    exact (proj1 (main_validation ex_world (with_lr_schedule "Nope" ex_config))
                 (or_introl Hs)).
  - split; [exact Hn|].
    refine (proj1 (proj2 (main_validation ex_world
                            (with_finetune_layer "stage5" ex_config))
                         _ _ _ _) _ _ _);
      try (vm_compute; reflexivity); try discriminate.
    intros H. apply Hn. right. right. exact H.
  - split; [exact Ha|].
    refine (proj2 (proj2 (main_validation ex_world
                            (with_augmentations ["Flip"; "Nope"] ex_config))
                         _ _ _ _) ["Flip"] "Nope" [] _ _ _ Ha _);
      try (vm_compute; reflexivity); try discriminate.
    + right. right. simpl. tauto.
    + repeat constructor; (vm_compute; reflexivity) || discriminate.
Defined.


(** C4 as stated fails: with the stage name [stage5] the run fails only
    after the model has been loaded. *)
Lemma freeze_stage_validated_late :
  let config := with_finetune_layer "stage5" ex_config in
  ¬ In (TRAIN_finetune_layer config) ("none" :: "all" :: valid_layers) ∧
  snd (main ex_world config) = Raise (AssertionError "") ∧
  In (EvLoadModel (TRAIN_whole_pretraining config)) (fst (main ex_world config)) ∧
  existsb allocates (fst (main ex_world config)) = true.
Proof.
  split; [|split; [|split]].
  - vm_compute. intros H. repeat (destruct H as [H|H]; [discriminate|]). exact H.
  - vm_compute. reflexivity.
  - vm_compute. tauto.
  - vm_compute. reflexivity.
Qed.

(** *** Checkpoints *)

Lemma checkpoints_written_not_save t :
  Forall not_save t → checkpoints_written t = [].
Proof.
  induction 1 as [|e t He _ IH]; [reflexivity|].
  destruct e; try exact IH. destruct He.
Qed.

Lemma checkpoints_written_cons e t :
  checkpoints_written (e :: t) =
    match e with
    | EvSaveCheckpoint st f => (ck_epoch st, f) :: checkpoints_written t
    | _ => checkpoints_written t
    end.
Proof. destruct e; reflexivity. Qed.

(** Without [TRAIN.amp] no run ever writes a checkpoint. *)
Lemma main_amp_false_no_checkpoint w config :
  TRAIN_amp config = false → checkpoints_written (fst (main w config)) = [].
Proof.
  intros Hamp. apply checkpoints_written_not_save, main_events.
  - intros e _ H. exact H.
  - intros dl _. exact I.
  - intros st f Ht. congruence.
Qed.

(** Without a scaler the loop stops with an [AttributeError] at the first
    epoch that is due for a checkpoint. *)
Lemma epoch_loop_no_scaler_fails config model opt sch n :
  TRAIN_save_freq config ≠ 0 →
  ∀ epoch,
  (∃ e, epoch ≤ e < epoch + Z.of_nat n ∧ (e + 1) mod TRAIN_save_freq config = 0) →
  snd (epoch_loop config model opt sch None n epoch) =
    Raise (AttributeError "'NoneType' object has no attribute 'state_dict'").
Proof.
  intros Hsf%Z.eqb_neq. induction n as [|n IH]; intros epoch (e & Hrange & Hdue).
  - lia.
  - cbn [epoch_loop]. run_unfold. rewrite Hsf.
    destruct ((epoch + 1) mod TRAIN_save_freq config =? 0) eqn:E.
    + reflexivity.
    + repeat (rewrite snd_run_bind; cbn [snd emit run_ret]).
      apply IH. exists e. split; [|exact Hdue].
      assert (e ≠ epoch) by (intros ->; apply Z.eqb_neq in E; contradiction).
      lia.
Qed.

(** With a scaler and a nonzero [save_freq] the loop runs to its end and
    writes a checkpoint after epoch [e] exactly when [save_freq] divides
    [e + 1]. *)
Lemma epoch_loop_scaler_checkpoints config model opt sch s n :
  TRAIN_save_freq config ≠ 0 →
  ∀ epoch,
  snd (epoch_loop config model opt sch (Some s) n epoch) = Ok tt ∧
  checkpoints_written (fst (epoch_loop config model opt sch (Some s) n epoch)) =
    map (λ e, (e + 1,
               os_path_join (TRAIN_model_dir config)
                            (config_name config +:+ "_checkpoint.pth.tar")))
        (List.filter (λ e, (e + 1) mod TRAIN_save_freq config =? 0)
                     (range_from epoch n)).
Proof.
  intros Hsf%Z.eqb_neq. induction n as [|n IH]; intros epoch.
  - split; reflexivity.
  - destruct (IH (epoch + 1)) as [IH1 IH2].
    cbn [epoch_loop range_from List.filter]. run_unfold. rewrite Hsf.
    destruct ((epoch + 1) mod TRAIN_save_freq config =? 0) eqn:E.
    + repeat (rewrite ?snd_run_bind, ?fst_run_bind; cbn [fst snd emit run_ret app]).
      split; [exact IH1|]. rewrite !checkpoints_written_cons, IH2. reflexivity.
    + repeat (rewrite ?snd_run_bind, ?fst_run_bind; cbn [fst snd emit run_ret app]).
      split; [exact IH1|]. rewrite !checkpoints_written_cons. exact IH2.
Qed.

(** C8 fails on the code when [TRAIN.amp] is false: the scaler is [None],
    epoch 0 is trained, the checkpoint is due ([save_freq = 1]), and
    building the bundle raises an [AttributeError]; nothing is written. *)
Theorem checkpoint_without_amp_fails :
  let config := with_amp false ex_config in
  TRAIN_amp config = false ∧
  (0 + 1) mod TRAIN_save_freq config = 0 ∧
  In (EvTrain 0) (fst (main ex_world config)) ∧
  snd (main ex_world config) =
    Raise (AttributeError "'NoneType' object has no attribute 'state_dict'") ∧
  checkpoints_written (fst (main ex_world config)) = [].
Proof.
  split; [reflexivity|]. split; [reflexivity|]. split; [vm_compute; tauto|].
  split; vm_compute; reflexivity.
Qed.

(** The same configuration with [TRAIN.amp] true writes both checkpoints. *)
Lemma checkpoint_with_amp_written :
  snd (main ex_world ex_config) = Ok tt ∧
  checkpoints_written (fst (main ex_world ex_config)) =
    [(1, "models/finetune_checkpoint.pth.tar");
     (2, "models/finetune_checkpoint.pth.tar")].
Proof. split; vm_compute; reflexivity. Qed.

(** ** The engine cache of the test widget *)

Lemma eqb_false_neq (a b : bool) : Bool.eqb a b = false ↔ a ≠ b.
Proof. destruct a, b; simpl; split; (discriminate || congruence). Qed.

(** What one invocation does from a coherent state. *)
Lemma widget_step st a :
  cache_coherent st →
  (must_build st a ∧
   widget st a =
     mkWidgetState (Some (arg_model_config a)) (Some (arg_use_gpu a))
       (Some (mkTestEngine (engines_built st) (arg_model_config a) (arg_use_gpu a)
                           (args_params a)))
       (S (engines_built st))) ∨
  (¬ must_build st a ∧
   ∃ e, engine st = Some e ∧
        widget st a =
          mkWidgetState (last_config st) (using_gpu st)
            (Some (update_params e (args_params a))) (engines_built st)).
Proof.
  intros [(Hlc & Hug & He)|(e & He & Hlc & Hug & Hid)].
  - left. split; [left; exact He|].
    unfold widget, needs_new_engine. rewrite Hlc, Hug. cbn. rewrite He. reflexivity.
  - unfold widget. rewrite Hlc. cbn match. rewrite Hug. cbn match.
    unfold needs_new_engine. rewrite He, Hlc, Hug.
    destruct (bool_decide (built_config e = arg_model_config a)) eqn:Ec.
    + destruct (Bool.eqb (arg_use_gpu a) (built_use_gpu e)) eqn:Eg.
      * right. apply bool_decide_eq_true in Ec. apply Bool.eqb_prop in Eg.
        split.
        -- intros [Hnone|(e' & He' & Hd)]; [congruence|].
           rewrite He in He'. injection He' as <-. destruct Hd; congruence.
        -- exists e. split; [reflexivity|]. reflexivity.
      * left. apply eqb_false_neq in Eg. split; [|reflexivity].
        right. exists e. split; [exact He|]. right. congruence.
    + left. apply bool_decide_eq_false in Ec. split; [|reflexivity].
      right. exists e. split; [exact He|]. left. exact Ec.
Qed.

Lemma widget_coherent st a : cache_coherent st → cache_coherent (widget st a).
Proof.
  intros Hst. destruct (widget_step st a Hst) as [[_ ->]|(_ & e & He & ->)].
  - right.
    exists (mkTestEngine (engines_built st) (arg_model_config a) (arg_use_gpu a)
                         (args_params a)).
    cbn. repeat split. lia.
  - destruct Hst as [(_ & _ & Hn)|(e' & He' & Hlc & Hug & Hid)]; [congruence|].
    rewrite He in He'. injection He' as <-.
    right. exists (update_params e (args_params a)). cbn. auto.
Qed.

Lemma widget_run_coherent calls : cache_coherent (widget_run calls).
Proof.
  unfold widget_run. induction calls as [|a calls IH] using rev_ind.
  - left. auto.
  - rewrite foldl_app. apply widget_coherent, IH.
Qed.

(** C9. After any sequence of invocations, the next one constructs a new
    engine exactly when there is none yet or the current one was built with
    another configuration or GPU flag; the new engine is a fresh object
    built from the arguments.  Otherwise the same engine object is kept,
    with its parameters updated and its construction inputs unchanged.
    Either way the cached configuration and GPU flag then equal the
    construction inputs of the engine. *)
Theorem widget_engine_cache (calls : list WidgetArgs) (a : WidgetArgs) :
  let st := widget_run calls in
  let st' := widget_run (calls ++ [a]) in
  (must_build st a ↔ engines_built st' = S (engines_built st)) ∧
  (must_build st a →
     ∃ e', engine st' = Some e' ∧ engine_id e' = engines_built st ∧
           (∀ e, engine st = Some e → engine_id e ≠ engine_id e') ∧
           built_config e' = arg_model_config a ∧
           built_use_gpu e' = arg_use_gpu a ∧
           engine_params e' = args_params a) ∧
  (¬ must_build st a →
     ∃ e, engine st = Some e ∧
          engine st' = Some (update_params e (args_params a)) ∧
          engine_id (update_params e (args_params a)) = engine_id e ∧
          built_config (update_params e (args_params a)) = built_config e ∧
          built_use_gpu (update_params e (args_params a)) = built_use_gpu e ∧
          engines_built st' = engines_built st) ∧
  (∃ e', engine st' = Some e' ∧
         last_config st' = Some (built_config e') ∧
         using_gpu st' = Some (built_use_gpu e')).
Proof.
  intros st st'.
  assert (Est : st' = widget st a).
  { unfold st', st, widget_run. rewrite foldl_app. reflexivity. }
  pose proof (widget_run_coherent calls) as Hst. fold st in Hst.
  pose proof (widget_run_coherent (calls ++ [a])) as Hst'. fold st' in Hst'.
  split; [|split; [|split]].
  - destruct (widget_step st a Hst) as [[Hb E]|(Hnb & e & He & E)];
      rewrite Est, E; cbn.
    + tauto.
    + split; [contradiction|lia].
  - intros Hb.
    destruct (widget_step st a Hst) as [[_ E]|(Hnb & _)]; [|contradiction].
    rewrite Est, E. cbn. eexists. split; [reflexivity|]. cbn.
    repeat split. intros e He.
    destruct Hst as [(_ & _ & Hn)|(e0 & He0 & _ & _ & Hid)]; [congruence|].
    rewrite He in He0. injection He0 as <-. lia.
  - intros Hnb.
    destruct (widget_step st a Hst) as [[Hb _]|(_ & e & He & E)]; [contradiction|].
    exists e. rewrite Est, E. cbn. auto 10.
  - destruct Hst' as [(_ & _ & Hn)|(e' & He' & Hlc & Hug & _)]; [|eauto].
    destruct (widget_step st a Hst) as [[_ E]|(_ & e & _ & E)];
      rewrite Est, E in Hn; discriminate.
Qed.

(** ** More on the layer-freeze policy *)

Lemma map_params_from_ext f g m : ∀ prefix,
  (∀ n p, f n p = g n p) → map_params_from f prefix m = map_params_from g prefix m.
Proof.
  induction m as [c ps ch IH] using NnModule_ind'. intros prefix E.
  cbn [map_params_from m_class _parameters _modules]. f_equal.
  - apply map_ext. intros [k v]. cbn [fst snd]. rewrite E. reflexivity.
  - apply map_ext_Forall. eapply Forall_impl; [exact IH|].
    intros [n child] Hc. cbn [fst snd] in *. rewrite (Hc _ E). reflexivity.
Qed.

Lemma map_params_from_compose f g m : ∀ prefix,
  map_params_from g prefix (map_params_from f prefix m) =
  map_params_from (λ n p, g n (f n p)) prefix m.
Proof.
  induction m as [c ps ch IH] using NnModule_ind'. intros prefix.
  cbn [map_params_from m_class _parameters _modules]. f_equal.
  - rewrite map_map. reflexivity.
  - rewrite map_map. apply map_ext_Forall. eapply Forall_impl; [exact IH|].
    intros [n child] Hc. cbn [fst snd] in *. rewrite Hc. reflexivity.
Qed.

Lemma unfreeze_layers_tree layers : ∀ model,
  foldl (λ mdl layer_name,
           set_requires_grad (contains ("encoder." +:+ layer_name)) true mdl)
        model layers =
  map_params_from
    (λ pname p, foldl (λ p layer_name,
                         set_flag (contains ("encoder." +:+ layer_name)) true pname p)
                      p layers) "" model.
Proof.
  induction layers as [|l layers IH]; intros model; cbn [foldl].
  - rewrite <- (map_params_from_compose (λ _ p, p) (λ _ p, p)) at 1.
    assert (Hid : ∀ m prefix, map_params_from (λ _ p, p) prefix m = m).
    { intros m. induction m as [c ps ch IHm] using NnModule_ind'. intros prefix.
      cbn [map_params_from m_class _parameters _modules]. f_equal.
      - rewrite <- (map_id ps) at 2. apply map_ext. intros [k v]. reflexivity.
      - rewrite <- (map_id ch) at 2. apply map_ext_Forall.
        eapply Forall_impl; [exact IHm|]. intros [n child] Hc. cbn [fst snd] in *.
        rewrite Hc. reflexivity. }
    rewrite !Hid. reflexivity.
  - rewrite IH. unfold set_requires_grad. rewrite map_params_from_compose. reflexivity.
Qed.

(** The freezing block is one rewrite of the tree by [freeze_param]. *)
Lemma freeze_encoder_tree S model :
  fst (freeze_encoder S model) = map_params_from (freeze_param S) "" model.
Proof.
  unfold freeze_encoder.
  destruct (String.eqb S "none") eqn:E1; [|destruct (String.eqb S "all") eqn:E2;
    [|destruct (name_in S valid_layers) eqn:E3]]; cbn [fst].
  - apply map_params_from_ext. intros n p. unfold freeze_param. rewrite E1. reflexivity.
  - unfold set_requires_grad. rewrite map_params_from_compose.
    apply map_params_from_ext. intros n p. unfold freeze_param. rewrite E1, E2.
    reflexivity.
  - rewrite unfreeze_layers_tree. unfold set_requires_grad.
    rewrite map_params_from_compose.
    apply map_params_from_ext. intros n p. unfold freeze_param. rewrite E1, E2, E3.
    reflexivity.
  - apply map_params_from_ext. intros n p. unfold freeze_param. rewrite E1, E2, E3.
    reflexivity.
Qed.

Lemma unfreeze_layers_param pname layers : ∀ p,
  foldl (λ p layer_name,
           set_flag (contains ("encoder." +:+ layer_name)) true pname p) p layers =
  mkParam (numel p)
          (requires_grad p ||
           existsb (λ l, contains ("encoder." +:+ l) pname) layers).
Proof.
  induction layers as [|l layers IH]; intros [n g]; cbn [foldl existsb numel requires_grad].
  - rewrite orb_false_r. reflexivity.
  - rewrite IH. unfold set_flag.
    destruct (contains ("encoder." +:+ l) pname); cbn [numel requires_grad].
    + rewrite orb_true_r. reflexivity.
    + reflexivity.
Qed.

(** An encoder parameter keeps its size and gets the flag [unfrozen]. *)
Lemma freeze_param_encoder S pname p :
  contains "encoder" pname = true →
  freeze_param S pname p = mkParam (numel p) (unfrozen S pname).
Proof.
  intros H. unfold freeze_param, unfrozen.
  assert (E : ∀ v q, set_flag (contains "encoder") v pname q = mkParam (numel q) v).
  { intros v q. unfold set_flag. rewrite H. reflexivity. }
  rewrite !E.
  destruct (String.eqb S "none"); [reflexivity|].
  destruct (String.eqb S "all"); [reflexivity|].
  destruct (name_in S valid_layers); [|reflexivity].
  rewrite unfreeze_layers_param. reflexivity.
Qed.

Lemma freeze_param_overwrites S1 S2 pname p :
  freeze_param S2 pname (freeze_param S1 pname p) = freeze_param S2 pname p.
Proof.
  destruct (contains "encoder" pname) eqn:H.
  - rewrite !(freeze_param_encoder _ _ _ H). reflexivity.
  - rewrite !(freeze_param_not_encoder _ _ _ H). reflexivity.
Qed.

(** X1. The freezing block starts from scratch: what an earlier application
    with selector [S1] left is overwritten, so applying [S1] and then [S2]
    gives the tree and the outcome of applying [S2] alone; in particular
    the block is idempotent. *)
Theorem freeze_encoder_overwrites (S1 S2 : string) (model : NnModule) :
  freeze_encoder S2 (fst (freeze_encoder S1 model)) = freeze_encoder S2 model ∧
  freeze_encoder S1 (fst (freeze_encoder S1 model)) = freeze_encoder S1 model.
Proof.
  assert (H : ∀ A B, freeze_encoder B (fst (freeze_encoder A model)) =
                     freeze_encoder B model).
  { intros A B. apply injective_projections.
    - rewrite !freeze_encoder_tree, map_params_from_compose.
      apply map_params_from_ext. intros n p. apply freeze_param_overwrites.
    - unfold freeze_encoder at 1 3.
      destruct (String.eqb B "none"); [reflexivity|].
      destruct (String.eqb B "all"); [reflexivity|].
      destruct (name_in B valid_layers); reflexivity. }
  split; apply H.
Qed.

Lemma num_trainable_freeze S model :
  num_trainable (fst (freeze_encoder S model)) =
    sum_list (map (λ np, trainable_numel (freeze_param S (fst np) (snd np)))
                  (named_parameters model)).
Proof.
  unfold num_trainable. rewrite named_parameters_freeze_encoder, map_map.
  reflexivity.
Qed.

Lemma sum_list_map_le {A} (f g : A → nat) l :
  (∀ x, In x l → (f x ≤ g x)%nat) →
  (sum_list (map f l) ≤ sum_list (map g l))%nat.
Proof.
  induction l as [|x l IH]; intros H; simpl; [lia|].
  pose proof (H x (or_introl eq_refl)).
  pose proof (IH (λ y Hy, H y (or_intror Hy))). lia.
Qed.

Lemma NoDup_valid_layers : NoDup valid_layers.
Proof. apply (bool_decide_unpack _). vm_compute. exact I. Qed.

Lemma stage_from_trans S T U : stage_from S T → stage_from T U → stage_from S U.
Proof.
  intros (i & j & Hi & Hj & Hij) (j' & k & Hj' & Hk & Hjk).
  assert (j = j').
  { apply (proj1 (NoDup_alt valid_layers) NoDup_valid_layers j j' T Hj Hj'). }
  subst j'. exists i, k. repeat split; try assumption. lia.
Qed.

Lemma stage_from_valid S T : stage_from S T → In S valid_layers ∧ In T valid_layers.
Proof.
  intros (i & j & Hi & Hj & _). split; apply list_elem_of_In;
    eapply list_elem_of_lookup_2; eassumption.
Qed.

Lemma unfrozen_stage S pname :
  In S valid_layers →
  unfrozen S pname =
    existsb (λ l, contains ("encoder." +:+ l) pname) (from_index S valid_layers).
Proof.
  intros HS. unfold unfrozen. rewrite (proj2 (name_in_true _ _) HS).
  simpl in HS. destruct HS as [<-|[<-|[<-|[<-|[]]]]]; reflexivity.
Qed.

(** A later stage unfreezes no parameter that an earlier one leaves frozen. *)
Lemma unfrozen_monotone S T pname :
  stage_from S T → unfrozen T pname = true → unfrozen S pname = true.
Proof.
  intros HST. destruct (stage_from_valid S T HST) as [HS HT].
  rewrite (unfrozen_stage S pname HS), (unfrozen_stage T pname HT).
  rewrite !existsb_exists. intros (l & Hl & Hc). exists l. split; [|exact Hc].
  apply (from_index_stage_from S l HS). apply (from_index_stage_from T l HT) in Hl.
  eapply stage_from_trans; eassumption.
Qed.

(** X2. The count of trainable elements that the driver reports grows with
    the part of the encoder that is unfrozen: it is least with [none],
    greatest with [all], and for two stages the earlier one gives at least
    the count of the later one. *)
Theorem num_trainable_monotone (S T : string) (model : NnModule) :
  stage_from S T →
  (num_trainable (fst (freeze_encoder "none" model)) ≤
     num_trainable (fst (freeze_encoder T model)))%nat ∧
  (num_trainable (fst (freeze_encoder T model)) ≤
     num_trainable (fst (freeze_encoder S model)))%nat ∧
  (num_trainable (fst (freeze_encoder S model)) ≤
     num_trainable (fst (freeze_encoder "all" model)))%nat.
Proof.
  intros HST. rewrite !num_trainable_freeze.
  assert (Hle : ∀ A B, (∀ pname, unfrozen A pname = true → unfrozen B pname = true) →
    (sum_list (map (λ np, trainable_numel (freeze_param A (fst np) (snd np)))
                   (named_parameters model)) ≤
     sum_list (map (λ np, trainable_numel (freeze_param B (fst np) (snd np)))
                   (named_parameters model)))%nat).
  { intros A B HAB. apply sum_list_map_le. intros [pname p] _. cbn [fst snd].
    destruct (contains "encoder" pname) eqn:H.
    - rewrite !(freeze_param_encoder _ _ _ H). unfold trainable_numel.
      cbn [requires_grad numel]. pose proof (HAB pname) as HAB'.
      destruct (unfrozen A pname); [rewrite HAB' by reflexivity; lia|].
      destruct (unfrozen B pname); lia.
    - rewrite !(freeze_param_not_encoder _ _ _ H). lia. }
  split; [|split]; apply Hle.
  - intros pname H. discriminate.
  - intros pname. apply unfrozen_monotone, HST.
  - intros pname _. reflexivity.
Qed.

(** Stages [stage1] and [stage3] on [ex_model]. *)
Lemma num_trainable_monotone_witness :
  stage_from "stage1" "stage3" ∧
  (num_trainable (fst (freeze_encoder "stage3" ex_model)) ≤
     num_trainable (fst (freeze_encoder "stage1" ex_model)))%nat.
Proof.
  assert (H : stage_from "stage1" "stage3").
  { exists 0%nat, 2%nat. split; [reflexivity|]. split; [reflexivity|]. lia. }
  split; [exact H|].
  exact (proj1 (proj2 (num_trainable_monotone "stage1" "stage3" ex_model H))).
Defined.

(** ** More on the weight-decay partitioner *)

Lemma named_modules_map_params_from f m : ∀ prefix,
  named_modules_from prefix (map_params_from f prefix m) =
    map (λ mm, (fst mm, map_params_from f (fst mm) (snd mm)))
        (named_modules_from prefix m).
Proof.
  induction m as [c ps ch IH] using NnModule_ind'. intros prefix.
  cbn [named_modules_from map_params_from _modules map fst snd]. f_equal.
  rewrite flat_map_map, map_flat_map. apply flat_map_ext_Forall.
  eapply Forall_impl; [exact IH|]. intros [n child] Hc. cbn [fst snd] in *. apply Hc.
Qed.

Lemma isinstance_blacklist_map_params_from f prefix m :
  isinstance_blacklist (map_params_from f prefix m) = isinstance_blacklist m.
Proof. destruct m. reflexivity. Qed.

Lemma parameters_map_params_from f prefix m :
  _parameters (map_params_from f prefix m) =
    map (λ kv, (fst kv, f (join_path prefix (fst kv)) (snd kv))) (_parameters m).
Proof. destruct m. reflexivity. Qed.

(** The partition looks at paths and module classes only. *)
Lemma decay_sets_map_params_from f model :
  decay_sets (map_params_from f "" model) = decay_sets model.
Proof.
  unfold decay_sets, named_modules.
  rewrite named_modules_map_params_from, foldl_map.
  apply foldl_ext'. intros sets [mn m]. cbn [fst snd].
  unfold named_parameters_own. rewrite parameters_map_params_from, foldl_map.
  apply foldl_ext'. intros sets' [k v]. cbn [fst snd].
  unfold classify. rewrite isinstance_blacklist_map_params_from. reflexivity.
Qed.

Lemma names_map_params_from f model :
  map fst (named_parameters (map_params_from f "" model)) =
  map fst (named_parameters model).
Proof.
  rewrite !named_parameters_unfold, named_parameters_map_params_from, map_map.
  reflexivity.
Qed.

Lemma forallb_map' {A B} (f : B → bool) (g : A → B) l :
  forallb f (map g l) = forallb (λ x, f (g x)) l.
Proof. induction l as [|x l IH]; simpl; [reflexivity|]. rewrite IH. reflexivity. Qed.

Lemma wf_module_map_params_from f m : ∀ prefix,
  wf_module (map_params_from f prefix m) = wf_module m.
Proof.
  induction m as [c ps ch IH] using NnModule_ind'. intros prefix.
  cbn [wf_module map_params_from _parameters _modules].
  rewrite !map_map, !forallb_map'. cbn [fst snd].
  f_equal.
  induction IH as [|[n child] ch Hc _ IHch]; [reflexivity|].
  cbn [forallb fst snd] in *. rewrite Hc, IHch. reflexivity.
Qed.

(** X3. The partition does not look at [requires_grad]: after the freezing
    block, with any selector, the decay and no-decay sets and the paths of
    the parameters are those of the model as loaded, so frozen encoder
    parameters are still placed in the groups of the optimizer. *)
Theorem decay_sets_after_freeze (S : string) (model : NnModule) :
  decay_sets (fst (freeze_encoder S model)) = decay_sets model ∧
  map fst (named_parameters (fst (freeze_encoder S model))) =
    map fst (named_parameters model) ∧
  wf_module (fst (freeze_encoder S model)) = wf_module model.
Proof.
  rewrite freeze_encoder_tree. split; [|split].
  - apply decay_sets_map_params_from.
  - apply names_map_params_from.
  - apply wf_module_map_params_from.
Qed.

(** *** Every parameter is in exactly one group *)

Lemma param_dict_lookup_In model n p :
  NoDup (map fst (named_parameters model)) →
  In (n, p) (named_parameters model) → param_dict model !! n = Some p.
Proof.
  intros Hnd Hin.
  assert (Hdom : n ∈ dom (param_dict model)).
  { rewrite dom_param_dict, elem_of_list_to_set, list_elem_of_In, in_map_iff.
    exists (n, p). auto. }
  apply elem_of_dom in Hdom as [p' Hp']. rewrite Hp'. f_equal.
  apply param_dict_lookup in Hp'.
  exact (NoDup_fst_In_inj _ _ _ _ Hnd Hp' Hin).
Qed.

Lemma lookup_all_map (d : gmap string Param) names ps :
  lookup_all d names = Ok ps →
  ps = map (λ n, default (mkParam 0 false) (d !! n)) names.
Proof.
  revert ps. induction names as [|n names IH]; intros ps; simpl.
  - intros [= <-]. reflexivity.
  - destruct (d !! n) as [p|]; [|discriminate].
    destruct (lookup_all d names) as [ps'|e]; [|discriminate]. simpl.
    intros [= <-]. rewrite (IH ps' eq_refl). reflexivity.
Qed.

Lemma sorted_partition_Permutation model :
  wf_module model = true →
  sorted (fst (decay_sets model)) ++ sorted (snd (decay_sets model)) ≡ₚ
  map fst (named_parameters model).
Proof.
  intros Hwf.
  pose proof (NoDup_owned model Hwf) as Hnd. rewrite owned_names in Hnd.
  pose proof (decay_sets_disjoint model (NoDup_owned model Hwf)) as Hdisj.
  pose proof (decay_sets_union model) as Hunion. rewrite dom_param_dict in Hunion.
  apply NoDup_Permutation; [|exact Hnd|].
  - apply NoDup_app. split; [apply NoDup_sorted|]. split; [|apply NoDup_sorted].
    intros x H1%list_elem_of_In%In_sorted H2%list_elem_of_In%In_sorted.
    apply (proj1 (elem_of_disjoint _ _) Hdisj x); assumption.
  - intros x. rewrite elem_of_app, !list_elem_of_In, !In_sorted.
    rewrite <- list_elem_of_In, <- (elem_of_list_to_set (C:=gset string)), <- Hunion.
    rewrite elem_of_union. reflexivity.
Qed.

(** X4. With a nonzero [weight_decay] on a well-formed tree, the two groups
    of the optimizer hold every parameter of the model exactly once: the
    parameters of the first group followed by those of the second are a
    rearrangement of [model.parameters()]. *)
Theorem configure_optimizer_all_parameters reg model opt_name
    (opt_params : gmap string Q) wd opt :
  wf_module model = true →
  opt_params !! "weight_decay" = Some wd → Qeq_bool wd 0 = false →
  configure_optimizer reg model opt_name opt_params = Ok opt →
  ∃ g1 g2, param_groups opt = [g1; g2] ∧
           params g1 ++ params g2 ≡ₚ parameters model.
Proof.
  intros Hwf Hwd Hnz.
  rewrite (configure_optimizer_nonzero reg model opt_name opt_params wd Hwd Hnz).
  cbn zeta.
  destruct (negb (size _ =? 0)%nat); [discriminate|].
  destruct (negb (size _ =? 0)%nat); [discriminate|].
  destruct (lookup_all _ (sorted (fst _))) as [ps1|e] eqn:E1; [|discriminate].
  destruct (lookup_all _ (sorted (snd _))) as [ps2|e] eqn:E2; [|discriminate].
  cbn [rbind]. unfold optim_construct.
  destruct (name_in opt_name (optimizers reg)); [|discriminate].
  intros [= <-]. cbn [param_groups map params].
  eexists _, _. split; [reflexivity|]. cbn [params].
  rewrite (lookup_all_map _ _ _ E1), (lookup_all_map _ _ _ E2), <- map_app.
  change (map ?f ?l) with (f <$> l).
  rewrite (sorted_partition_Permutation model Hwf).
  unfold parameters.
  pose proof (NoDup_owned model Hwf) as Hnd. rewrite owned_names in Hnd.
  change (?f <$> ?l) with (map f l). rewrite map_map.
  rewrite (map_ext_in _ snd); [reflexivity|].
  intros [n p] Hin. cbn [fst snd].
  rewrite (param_dict_lookup_In model n p Hnd Hin). reflexivity.
Qed.

(** [ex_model] with [weight_decay = 1/10]. *)
Lemma configure_optimizer_all_parameters_witness :
  wf_module ex_model = true ∧
  ex_opt_params !! "weight_decay" = Some (1 # 10) ∧ Qeq_bool (1 # 10) 0 = false ∧
  ∃ opt g1 g2,
    configure_optimizer ex_registry ex_model "AdamW" ex_opt_params = Ok opt ∧
    param_groups opt = [g1; g2] ∧
    params g1 ++ params g2 ≡ₚ parameters ex_model.
Proof.
  assert (H1 : wf_module ex_model = true) by (vm_compute; reflexivity).
  assert (H2 : ex_opt_params !! "weight_decay" = Some (1 # 10))
    by (vm_compute; reflexivity).
  assert (H3 : Qeq_bool (1 # 10) 0 = false) by reflexivity.
  split; [exact H1|]. split; [exact H2|]. split; [exact H3|].
  destruct (configure_optimizer ex_registry ex_model "AdamW" ex_opt_params)
    as [opt|e] eqn:E; [|vm_compute in E; discriminate].
  destruct (configure_optimizer_all_parameters ex_registry ex_model "AdamW"
              ex_opt_params (1 # 10) opt H1 H2 H3 E) as (g1 & g2 & Hg & Hp).
  exists opt, g1, g2. auto.
Defined.

(** ** More on the driver *)

Lemma run_bind_Ok {A B} t a (k : A → Run B) :
  run_bind (t, Ok a) k = (t ++ fst (k a), snd (k a)).
Proof. simpl. destruct (k a). reflexivity. Qed.

Lemma build_augmentations_accepted reg augs :
  Forall (λ a, name_in a (augmentations reg) = true ∧ a ≠ "CopyPaste") augs →
  build_augmentations reg augs = (map EvAugmentation augs, Ok tt).
Proof.
  induction 1 as [|a augs [Ha Hne%String.eqb_neq] _ IH]; [reflexivity|].
  cbn [build_augmentations]. unfold assert_. run_unfold.
  rewrite Ha, Hne, IH. reflexivity.
Qed.

Lemma add_datasets_eval w dirs : ∀ len,
  add_datasets w dirs len =
    (map EvDataset dirs, Ok (len + sum_list (map (dataset_len w) dirs))%nat).
Proof.
  induction dirs as [|d dirs IH]; intros len; cbn [add_datasets map sum_list].
  - rewrite Nat.add_0_r. reflexivity.
  - run_unfold. unfold emit. rewrite run_bind_Ok, IH. cbn [fst snd app].
    rewrite Nat.add_assoc. reflexivity.
Qed.

Lemma build_dataset_eval w config :
  build_dataset w config =
    (EvDataset (TRAIN_train_dir config) ::
       map EvDataset (default [] (TRAIN_additional_train_dirs config)),
     Ok (train_dataset_len w config)).
Proof.
  unfold build_dataset, train_dataset_len. run_unfold. unfold emit.
  rewrite run_bind_Ok.
  destruct (TRAIN_additional_train_dirs config) as [dirs|]; cbn [default].
  - rewrite add_datasets_eval. reflexivity.
  - cbn. rewrite Nat.add_0_r. reflexivity.
Qed.

Lemma build_loader_eval config len :
  TRAIN_batch_size config ≠ 0 →
  build_loader config len =
    ([EvDataLoader (mkDataLoader len (TRAIN_batch_size config) true
                                 (TRAIN_workers config) true)],
     Ok (mkDataLoader len (TRAIN_batch_size config) true (TRAIN_workers config) true)).
Proof.
  intros Hbs%Z.eqb_neq. unfold build_loader. rewrite Hbs. reflexivity.
Qed.

(** On a well-formed tree and for a known optimizer the partitioner
    returns. *)
Lemma configure_optimizer_total reg model opt_name (opt_params : gmap string Q) :
  wf_module model = true → name_in opt_name (optimizers reg) = true →
  ∃ opt, configure_optimizer reg model opt_name opt_params = Ok opt ∧
         opt_class opt = opt_name.
Proof.
  intros Hwf Hname.
  destruct (opt_params !! "weight_decay") as [wd|] eqn:Hwd.
  - destruct (Qeq_bool wd 0) eqn:Hz.
    + unfold configure_optimizer, optim_construct. rewrite Hwd, Hz, Hname. eauto.
    + rewrite (configure_optimizer_nonzero reg model opt_name opt_params wd Hwd Hz).
      cbn zeta.
      pose proof (decay_sets_union model) as Hunion.
      pose proof (decay_sets_disjoint model (NoDup_owned model Hwf)) as Hdisj.
      rewrite (proj2 (size_inter_zero _ _) Hdisj).
      rewrite (proj2 (size_diff_zero _ _)) by (rewrite Hunion; reflexivity).
      cbn [negb].
      destruct (lookup_all_group model (fst (decay_sets model))) as (ps1 & -> & _).
      { rewrite <- Hunion. apply union_subseteq_l. }
      destruct (lookup_all_group model (snd (decay_sets model))) as (ps2 & -> & _).
      { rewrite <- Hunion. apply union_subseteq_r. }
      cbn [rbind]. rewrite optim_construct_groups by exact Hname. eauto.
  - unfold configure_optimizer, optim_construct. rewrite Hwd, Hname. eauto.
Qed.

(** The scheduler is built with the length of the loader for
    [steps_per_epoch], whatever the configured value. *)
Lemma build_scheduler_eval config dl :
  ∃ t, build_scheduler config dl =
         (t ++ [EvScheduler (mkScheduler (TRAIN_lr_schedule config)
                               ((λ _, loader_len dl) <$> schedule_steps_per_epoch config))],
          Ok (mkScheduler (TRAIN_lr_schedule config)
                ((λ _, loader_len dl) <$> schedule_steps_per_epoch config))) ∧
       (t = [] ∨ ∃ n, schedule_steps_per_epoch config = Some n ∧
                      n ≠ loader_len dl ∧ t = [EvPrintSteps n (loader_len dl)]).
Proof.
  unfold build_scheduler. run_unfold.
  destruct (schedule_steps_per_epoch config) as [n|]; cbn [fmap option_fmap option_map].
  - destruct (n =? loader_len dl) eqn:E; cbn [negb].
    + apply Z.eqb_eq in E. subst n. exists []. split; [reflexivity|auto].
    + apply Z.eqb_neq in E. exists [EvPrintSteps n (loader_len dl)].
      split; [reflexivity|]. right. exists n. auto.
  - exists []. split; [reflexivity|auto].
Qed.

Lemma setup_event_map {A} (f : A → Event) l :
  (∀ x, setup_event (f x)) → Forall setup_event (map f l).
Proof. intros H. induction l; constructor; auto. Qed.

Lemma setup_event_mkdir w config : Forall setup_event (mkdir_events w config).
Proof. unfold mkdir_events. destruct (negb _); repeat constructor. Qed.

(** With an accepted configuration the setup runs to its end: it builds the
    optimizer and the scheduler and hands over to the epoch loop. *)
Lemma main_setup w config :
  setup_ok w config →
  ∃ t opt,
    Forall setup_event t ∧ In (EvOptimizer opt) t ∧
    opt_class opt = TRAIN_optimizer config ∧
    In (EvScheduler
          (mkScheduler (TRAIN_lr_schedule config)
             ((λ _, Z.of_nat (train_dataset_len w config) / TRAIN_batch_size config)
                <$> schedule_steps_per_epoch config))) t ∧
    let model := fst (freeze_encoder (TRAIN_finetune_layer config)
                                     (hub_load w (TRAIN_whole_pretraining config))) in
    let sch := mkScheduler (TRAIN_lr_schedule config)
                 ((λ _, Z.of_nat (train_dataset_len w config) / TRAIN_batch_size config)
                    <$> schedule_steps_per_epoch config) in
    let scaler := if TRAIN_amp config then Some mkGradScaler else None in
    let rest := run_bind (configured_epochs config)
                  (λ epochs, epoch_loop config model opt sch scaler
                                        (Z.to_nat epochs) 0) in
    main w config = (t ++ fst rest, snd rest).
Proof.
  intros (H1 & H2 & H3 & Hds & Hfl & Haug & Hbs & Hwf).
  rewrite (main_names_accepted w config H1 H2 H3).
  unfold main_worker. run_unfold. rewrite Hds.
  pose proof (freeze_encoder_accepted _ (hub_load w (TRAIN_whole_pretraining config)) Hfl)
    as Hfr.
  pose proof (wf_module_map_params_from
                (freeze_param (TRAIN_finetune_layer config))
                (hub_load w (TRAIN_whole_pretraining config)) "") as Hwf'.
  rewrite <- freeze_encoder_tree, Hwf in Hwf'.
  destruct (freeze_encoder _ _) as [model frozen]. cbn [fst snd] in *. subst frozen.
  destruct (configure_optimizer_total (registry w) model (TRAIN_optimizer config)
              (TRAIN_optimizer_params config) Hwf' H2) as (opt & Hopt & Hcls).
  rewrite (build_augmentations_accepted _ _ Haug), build_dataset_eval.
  destruct (build_scheduler_eval config
              (mkDataLoader (train_dataset_len w config) (TRAIN_batch_size config) true
                            (TRAIN_workers config) true)) as (ts & Hsch & Hts).
  unfold loader_len in Hsch. cbn [dl_dataset_len dl_batch_size] in Hsch.
  assert (Hscaler :
    (if TRAIN_amp config
     then run_bind (emit EvGradScaler) (λ _, run_ret (Some mkGradScaler))
     else run_ret None) =
    (if TRAIN_amp config then [EvGradScaler] else [],
     Ok (if TRAIN_amp config then Some mkGradScaler else None))).
  { destruct (TRAIN_amp config); reflexivity. }
  rewrite Hscaler.
  unfold emit, lift, raise, run_ret.
  repeat (rewrite ?run_bind_Ok, ?(build_loader_eval _ _ Hbs), ?Hopt, ?Hsch;
          cbn [fst snd]).
  eexists _, opt. split; [|split; [|split; [exact Hcls|split]]]; cycle 3.
  - cbn zeta. unfold configured_epochs. run_unfold. unfold raise, run_ret.
    f_equal. rewrite !List.app_assoc. reflexivity.
  - rewrite !Forall_app. repeat split;
      try (by repeat constructor);
      try apply setup_event_mkdir;
      try (apply setup_event_map; intros; exact I).
    + constructor; [exact I|]. apply setup_event_map. intros; exact I.
    + destruct Hts as [->|(n & _ & _ & ->)]; repeat constructor.
    + destruct (TRAIN_amp config); repeat constructor.
  - rewrite !in_app_iff. simpl. tauto.
  - rewrite !in_app_iff. simpl. tauto.
Qed.

Lemma trained_epochs_app t1 t2 :
  trained_epochs (t1 ++ t2) = trained_epochs t1 ++ trained_epochs t2.
Proof. apply omap_app. Qed.

Lemma checkpoints_written_app t1 t2 :
  checkpoints_written (t1 ++ t2) = checkpoints_written t1 ++ checkpoints_written t2.
Proof. apply omap_app. Qed.

Lemma setup_events_quiet t :
  Forall setup_event t → trained_epochs t = [] ∧ checkpoints_written t = [].
Proof.
  induction 1 as [|e t He _ [IH1 IH2]]; [split; reflexivity|].
  destruct e; try (split; [exact IH1|exact IH2]); destruct He.
Qed.

Lemma trained_epochs_cons e t :
  trained_epochs (e :: t) =
    match e with EvTrain epoch => epoch :: trained_epochs t | _ => trained_epochs t end.
Proof. destruct e; reflexivity. Qed.

(** With a scaler and a nonzero [save_freq] the loop trains every epoch of
    its range, in order. *)
Lemma epoch_loop_scaler_trained config model opt sch s n :
  TRAIN_save_freq config ≠ 0 →
  ∀ epoch,
  trained_epochs (fst (epoch_loop config model opt sch (Some s) n epoch)) =
    range_from epoch n.
Proof.
  intros Hsf%Z.eqb_neq. induction n as [|n IH]; intros epoch; [reflexivity|].
  cbn [epoch_loop range_from]. run_unfold. rewrite Hsf.
  destruct ((epoch + 1) mod TRAIN_save_freq config =? 0);
    repeat (rewrite ?snd_run_bind, ?fst_run_bind; cbn [fst snd emit run_ret app]);
    rewrite !trained_epochs_cons, IH; reflexivity.
Qed.

Lemma configured_epochs_eval config n :
  schedule_epochs config = Some n ∨
  schedule_epochs config = None ∧ TRAIN_epochs config = Some n →
  configured_epochs config = ([], Ok n).
Proof.
  unfold configured_epochs. intros [-> | [-> ->]]; reflexivity.
Qed.

(** X5. With an accepted configuration, [TRAIN.amp] on and a nonzero
    [save_freq], and every call of [train] returning, the driver returns
    normally: it trains the epochs
    [0 .. n-1] in order, where [n] is the [epochs] entry of
    [schedule_params] if there is one and [TRAIN.epochs] otherwise, and
    writes a checkpoint after epoch [e] exactly when [save_freq] divides
    [e + 1], every time to the same path. *)
Theorem main_trains_all_epochs w config n :
  setup_ok w config → TRAIN_amp config = true → TRAIN_save_freq config ≠ 0 →
  schedule_epochs config = Some n ∨
    schedule_epochs config = None ∧ TRAIN_epochs config = Some n →
  snd (main w config) = Ok tt ∧
  trained_epochs (fst (main w config)) = range_from 0 (Z.to_nat n) ∧
  checkpoints_written (fst (main w config)) =
    map (λ e, (e + 1, checkpoint_path config))
        (List.filter (λ e, (e + 1) mod TRAIN_save_freq config =? 0)
                     (range_from 0 (Z.to_nat n))).
Proof.
  intros Hok Hamp Hsf Hn.
  destruct (main_setup w config Hok) as (t & opt & Ht & _ & _ & _ & E).
  cbn zeta in E. rewrite E, Hamp, (configured_epochs_eval config n Hn), run_bind_Ok.
  cbn [fst snd app].
  destruct (setup_events_quiet t Ht) as [Q1 Q2].
  destruct (epoch_loop_scaler_checkpoints config
              (fst (freeze_encoder (TRAIN_finetune_layer config)
                                   (hub_load w (TRAIN_whole_pretraining config))))
              opt
              (mkScheduler (TRAIN_lr_schedule config)
                 ((λ _, Z.of_nat (train_dataset_len w config) / TRAIN_batch_size config)
                    <$> schedule_steps_per_epoch config))
              mkGradScaler (Z.to_nat n) Hsf 0) as [L1 L2].
  split; [exact L1|].
  rewrite trained_epochs_app, checkpoints_written_app, Q1, Q2. cbn [app].
  split; [apply epoch_loop_scaler_trained, Hsf|exact L2].
Qed.

(** X6. With an accepted configuration that has no [epochs] entry in
    [schedule_params] and none in [TRAIN], the driver raises its
    [Exception] only after the model, the datasets, the optimizer and the
    scheduler have been built, and before any epoch is trained. *)
Theorem main_epochs_undefined w config :
  setup_ok w config →
  schedule_epochs config = None → TRAIN_epochs config = None →
  snd (main w config) = Raise (Exception "Number of training epochs not defined!") ∧
  trained_epochs (fst (main w config)) = [] ∧
  (∃ opt, In (EvOptimizer opt) (fst (main w config))) ∧
  (∃ sch, In (EvScheduler sch) (fst (main w config))).
Proof.
  intros Hok Hs Ht.
  destruct (main_setup w config Hok) as (t & opt & Hq & Hopt & _ & Hsch & E).
  cbn zeta in E. rewrite E. unfold configured_epochs. rewrite Hs, Ht.
  cbn [raise run_bind fst snd]. rewrite app_nil_r.
  split; [reflexivity|]. split; [apply (setup_events_quiet t Hq)|].
  split; eauto.
Qed.

(** X7. With an accepted configuration, [save_freq = 0] and at least one
    epoch to train, the driver trains epoch 0 and, when [train] has
    returned, stops with a
    [ZeroDivisionError]; no checkpoint is written. *)
Theorem main_save_freq_zero w config n :
  setup_ok w config → TRAIN_save_freq config = 0 → 0 < n →
  schedule_epochs config = Some n ∨
    schedule_epochs config = None ∧ TRAIN_epochs config = Some n →
  snd (main w config) = Raise ZeroDivisionError ∧
  trained_epochs (fst (main w config)) = [0] ∧
  checkpoints_written (fst (main w config)) = [].
Proof.
  intros Hok Hsf Hpos Hn.
  destruct (main_setup w config Hok) as (t & opt & Ht & _ & _ & _ & E).
  cbn zeta in E. rewrite E, (configured_epochs_eval config n Hn), run_bind_Ok.
  cbn [fst snd app].
  destruct (setup_events_quiet t Ht) as [Q1 Q2].
  destruct (Z.to_nat n) as [|k] eqn:Ek; [lia|].
  cbn [epoch_loop]. run_unfold. rewrite Hsf. cbn [Z.eqb].
  unfold emit, raise. rewrite run_bind_Ok. cbn [run_bind fst snd].
  rewrite trained_epochs_app, checkpoints_written_app, Q1, Q2.
  repeat split; reflexivity.
Qed.

Ltac solve_setup_ok :=
  unfold setup_ok;
  repeat match goal with
         | |- _ ∧ _ => split
         | |- Forall _ _ => repeat constructor
         | |- _ = true => vm_compute; reflexivity
         | |- _ ≠ _ => discriminate
         | |- _ ∨ _ => right; right; simpl; tauto
         end.

(** [ex_config] on [ex_world]: two epochs, a checkpoint after each. *)
Lemma main_trains_all_epochs_witness :
  setup_ok ex_world ex_config ∧ TRAIN_amp ex_config = true ∧
  TRAIN_save_freq ex_config ≠ 0 ∧ schedule_epochs ex_config = Some 2 ∧
  snd (main ex_world ex_config) = Ok tt ∧
  trained_epochs (fst (main ex_world ex_config)) = [0; 1].
Proof.
  assert (H1 : setup_ok ex_world ex_config) by solve_setup_ok.
  assert (H2 : TRAIN_amp ex_config = true) by reflexivity.
  assert (H3 : TRAIN_save_freq ex_config ≠ 0) by discriminate.
  assert (H4 : schedule_epochs ex_config = Some 2) by reflexivity.
  split; [exact H1|]. split; [exact H2|]. split; [exact H3|]. split; [exact H4|].
  destruct (main_trains_all_epochs ex_world ex_config 2 H1 H2 H3 (or_introl H4))
    as (R1 & R2 & _).
  split; [exact R1|exact R2].
Defined.

(** [ex_config] without any [epochs] entry. *)
Lemma main_epochs_undefined_witness :
  setup_ok ex_world (with_epochs None None ex_config) ∧
  snd (main ex_world (with_epochs None None ex_config)) =
    Raise (Exception "Number of training epochs not defined!").
Proof.
  assert (H1 : setup_ok ex_world (with_epochs None None ex_config))
    by solve_setup_ok.
  split; [exact H1|].
  exact (proj1 (main_epochs_undefined ex_world (with_epochs None None ex_config)
                  H1 eq_refl eq_refl)).
Defined.

(** [ex_config] with [save_freq = 0]. *)
Lemma main_save_freq_zero_witness :
  setup_ok ex_world (with_save_freq 0 ex_config) ∧ 0 < 2 ∧
  snd (main ex_world (with_save_freq 0 ex_config)) = Raise ZeroDivisionError ∧
  trained_epochs (fst (main ex_world (with_save_freq 0 ex_config))) = [0].
Proof.
  assert (H1 : setup_ok ex_world (with_save_freq 0 ex_config)) by solve_setup_ok.
  assert (H2 : 0 < 2) by lia.
  split; [exact H1|]. split; [exact H2|].
  destruct (main_save_freq_zero ex_world (with_save_freq 0 ex_config) 2 H1 eq_refl H2
              (or_introl eq_refl)) as (R1 & R2 & _).
  split; [exact R1|exact R2].
Defined.

(** *** Runs that cannot succeed *)

Lemma snd_run_bind_Ok {A B} (m : Run A) (k : A → Run B) b :
  snd (run_bind m k) = Ok b → ∃ a, snd m = Ok a ∧ snd (k a) = Ok b.
Proof.
  rewrite snd_run_bind. destruct (snd m) as [a|e]; [eauto|discriminate].
Qed.

Lemma build_augmentations_trace reg augs :
  ∃ l, fst (build_augmentations reg augs) = map EvAugmentation l.
Proof.
  induction augs as [|a augs [l IH]]; [exists []; reflexivity|].
  cbn [build_augmentations]. unfold assert_. run_unfold.
  destruct (_ || _); [|exists []; reflexivity].
  unfold run_ret. rewrite run_bind_Ok. cbn [app].
  destruct (String.eqb a "CopyPaste"); [exists []; reflexivity|].
  unfold emit. rewrite run_bind_Ok. cbn [fst]. rewrite IH.
  exists (a :: l). reflexivity.
Qed.

Lemma build_augmentations_Ok reg augs r :
  snd (build_augmentations reg augs) = Ok r → ¬ In "CopyPaste" augs.
Proof.
  induction augs as [|a augs IH]; [intros _ []|].
  cbn [build_augmentations]. unfold assert_. run_unfold.
  intros H. apply snd_run_bind_Ok in H as (_ & _ & H).
  apply snd_run_bind_Ok in H as (u & Ha & H).
  destruct (String.eqb a "CopyPaste") eqn:E; [discriminate|].
  apply String.eqb_neq in E. intros [Heq|Hin]; [congruence|]. exact (IH H Hin).
Qed.

(** X8. An augmentation list that names [CopyPaste] passes the name
    assertion but the run never succeeds, since the module defines no
    [CopyPaste]: with the names before it accepted, the loop over the
    augmentations raises a [NameError]; and in no such run of the driver is
    a dataset ever created. *)
Theorem copy_paste_never_runs :
  (∀ reg good rest,
     Forall (λ a, name_in a (augmentations reg) = true ∧ a ≠ "CopyPaste") good →
     build_augmentations reg (good ++ "CopyPaste" :: rest) =
       (map EvAugmentation good, Raise (NameError "CopyPaste"))) ∧
  (∀ w config, In "CopyPaste" (TRAIN_augmentations config) →
     (∀ r, snd (main w config) ≠ Ok r) ∧
     Forall not_dataset (fst (main w config))).
Proof.
  split.
  - intros reg good rest Hgood.
    induction Hgood as [|a good [Ha Hne%String.eqb_neq] _ IH].
    + cbn [app build_augmentations]. unfold assert_. run_unfold.
      rewrite orb_true_r. reflexivity.
    + cbn [app build_augmentations]. unfold assert_. run_unfold.
      rewrite Ha, Hne, IH. reflexivity.
  - intros w config Hcp. split.
    + intros r H. unfold main in H. run_unfold.
      do 4 (apply snd_run_bind_Ok in H as (_ & _ & H)).
      unfold main_worker in H. run_unfold.
      do 2 (apply snd_run_bind_Ok in H as (_ & _ & H)).
      destruct (freeze_encoder _ _) as [model frozen].
      do 2 (apply snd_run_bind_Ok in H as (_ & _ & H)).
      apply snd_run_bind_Ok in H as (u & Haug & _).
      exact (build_augmentations_Ok _ _ _ Haug Hcp).
    + unfold main. run_unfold.
      apply Forall_run_bind; [destruct (negb _); repeat constructor|]. intros _ _.
      do 3 (apply Forall_run_bind;
            [unfold assert_; destruct (name_in _ _); constructor|]; intros _ _).
      unfold main_worker. run_unfold.
      apply Forall_run_bind; [repeat constructor|]. intros _ _.
      apply Forall_run_bind; [destruct (name_in _ _); constructor|]. intros _ _.
      destruct (freeze_encoder _ _) as [model frozen].
      apply Forall_run_bind; [constructor|]. intros _ _.
      apply Forall_run_bind; [repeat constructor|]. intros _ _.
      apply Forall_run_bind.
      * destruct (build_augmentations_trace (registry w) (TRAIN_augmentations config))
          as [l ->].
        induction l; constructor; [exact I|assumption].
      * intros u Haug. destruct (build_augmentations_Ok _ _ _ Haug Hcp).
Qed.

(** X9. With [TRAIN.batch_size = 0] no run succeeds and no loader is ever
    constructed: the cap on the workers, though unused, divides by the
    batch size first. *)
Theorem batch_size_zero_never_runs w config :
  TRAIN_batch_size config = 0 →
  (∀ r, snd (main w config) ≠ Ok r) ∧
  Forall not_loader (fst (main w config)) ∧
  (∀ len, build_loader config len = ([], Raise ZeroDivisionError)).
Proof.
  intros Hbs.
  assert (Hbl : ∀ len, build_loader config len = ([], Raise ZeroDivisionError)).
  { intros len. unfold build_loader. rewrite Hbs. reflexivity. }
  split; [|split; [|exact Hbl]].
  - intros r H. unfold main in H. run_unfold.
    do 4 (apply snd_run_bind_Ok in H as (_ & _ & H)).
    unfold main_worker in H. run_unfold.
    do 2 (apply snd_run_bind_Ok in H as (_ & _ & H)).
    destruct (freeze_encoder _ _) as [model frozen].
    do 3 (apply snd_run_bind_Ok in H as (_ & _ & H)).
    apply snd_run_bind_Ok in H as (len & _ & H).
    apply snd_run_bind_Ok in H as (dl & Hdl & _).
    rewrite Hbl in Hdl. discriminate.
  - unfold main. run_unfold.
    apply Forall_run_bind; [destruct (negb _); repeat constructor|]. intros _ _.
    do 3 (apply Forall_run_bind;
          [unfold assert_; destruct (name_in _ _); constructor|]; intros _ _).
    unfold main_worker. run_unfold.
    apply Forall_run_bind; [repeat constructor|]. intros _ _.
    apply Forall_run_bind; [destruct (name_in _ _); constructor|]. intros _ _.
    destruct (freeze_encoder _ _) as [model frozen].
    apply Forall_run_bind; [constructor|]. intros _ _.
    apply Forall_run_bind; [repeat constructor|]. intros _ _.
    apply Forall_run_bind.
    { apply build_augmentations_events. intros e H _. exact H. }
    intros _ _.
    apply Forall_run_bind.
    { apply build_dataset_events. intros e H _. exact H. }
    intros len _.
    apply Forall_run_bind; [rewrite Hbl; constructor|].
    intros dl Hdl. rewrite Hbl in Hdl. discriminate.
Qed.

(** [ex_config] with a batch size of zero. *)
Lemma batch_size_zero_never_runs_witness :
  TRAIN_batch_size (with_batch_size 0 ex_config) = 0 ∧
  snd (main ex_world (with_batch_size 0 ex_config)) ≠ Ok tt.
Proof.
  split; [reflexivity|].
  exact (proj1 (batch_size_zero_never_runs ex_world (with_batch_size 0 ex_config)
                  eq_refl) tt).
Defined.


(** ** One epoch of training *)

Lemma fst_trace_bind {E A B} (m : Trace E A) (k : A → Trace E B) :
  fst (trace_bind m k) =
    fst m ++ match snd m with Ok a => fst (k a) | Raise _ => [] end.
Proof.
  destruct m as [t [a|e]]; simpl.
  - destruct (k a). reflexivity.
  - rewrite app_nil_r. reflexivity.
Qed.

Lemma snd_trace_bind {E A B} (m : Trace E A) (k : A → Trace E B) :
  snd (trace_bind m k) = match snd m with Ok a => snd (k a) | Raise e => Raise e end.
Proof.
  destruct m as [t [a|e]]; simpl; [|reflexivity]. destruct (k a). reflexivity.
Qed.

Lemma trace_bind_Ok {E A B} t a (k : A → Trace E B) :
  trace_bind (t, Ok a) k = (t ++ fst (k a), snd (k a)).
Proof. simpl. destruct (k a). reflexivity. Qed.

Ltac trace_unfold :=
  unfold mbind, Trace_bind, mret, Trace_ret, tell, throw, trace_ret.

Ltac trace_eval :=
  repeat (rewrite ?trace_bind_Ok; cbn [fst snd app trace_bind]).

Lemma build_metric_dict_ok ns ms : ∀ d,
  Forall (λ mp, ∃ n k, mp_name mp = Some n ∧ mp_metric mp = Some k ∧
                       name_in k ns = true) ms →
  ∃ t d', build_metric_dict ns ms d = (t, Ok d') ∧
          List.filter is_step t = [] ∧ displays t = [].
Proof.
  induction ms as [|mp ms IH]; intros d Hms.
  - exists [], d. repeat split; reflexivity.
  - apply Forall_cons in Hms as [(n & k & Hn & Hk & Hin) Hms].
    destruct (IH (<[n := k]> d) Hms) as (t & d' & E & F1 & F2).
    cbn [build_metric_dict]. unfold getitem. rewrite Hn, Hk.
    trace_unfold. trace_eval. rewrite Hin. trace_eval. rewrite E.
    exists (TMetric n k :: t), d'. repeat split; assumption.
Qed.

Lemma new_loss_meters_eval keys : ∀ lm pm,
  ∃ t, new_loss_meters keys lm pm = (t, Ok (lm ++ keys, pm ++ keys)) ∧
       List.filter is_step t = [] ∧ displays t = [].
Proof.
  induction keys as [|k keys IH]; intros lm pm.
  - exists []. rewrite !app_nil_r. repeat split; reflexivity.
  - destruct (IH (lm ++ [k]) (pm ++ [k])) as (t & E & F1 & F2).
    cbn [new_loss_meters]. trace_unfold. trace_eval. rewrite E.
    rewrite <- !List.app_assoc. cbn [app fst snd].
    exists (TNewLossMeter k :: TLossUpdate k :: t). repeat split; assumption.
Qed.

Lemma update_loss_meters_ok keys ms :
  (∀ k, In k keys → In k ms) →
  update_loss_meters keys ms = (map TLossUpdate keys, Ok tt).
Proof.
  induction keys as [|k keys IH]; intros H; [reflexivity|].
  cbn [update_loss_meters]. rewrite (proj2 (name_in_true k ms)) by (apply H; left; reflexivity).
  trace_unfold. trace_eval. rewrite IH by (intros; apply H; right; assumption).
  reflexivity.
Qed.

Lemma update_loss_meters_fail good k rest ms :
  (∀ x, In x good → In x ms) → ¬ In k ms →
  update_loss_meters (good ++ k :: rest) ms = (map TLossUpdate good, Raise (KeyError k)).
Proof.
  intros Hgood Hk. induction good as [|g good IH]; cbn [app update_loss_meters].
  - rewrite (proj2 (name_in_false k ms) Hk). reflexivity.
  - rewrite (proj2 (name_in_true g ms)) by (apply Hgood; left; reflexivity).
    trace_unfold. trace_eval. rewrite IH by (intros; apply Hgood; right; assumption).
    reflexivity.
Qed.

Lemma filter_is_step_updates keys : List.filter is_step (map TLossUpdate keys) = [].
Proof. induction keys; [reflexivity|assumption]. Qed.

Lemma displays_updates keys : displays (map TLossUpdate keys) = [].
Proof. induction keys; [reflexivity|assumption]. Qed.

Lemma displays_app t1 t2 : displays (t1 ++ t2) = displays t1 ++ displays t2.
Proof. apply omap_app. Qed.

(** The events of a batch before the losses are recorded. *)
Lemma batch_head_eval scaler :
  ∃ t, (tell TZeroGrad;;
        match scaler with
        | Some _ => tell TForward;; tell (TBackward true);;
                    tell TScalerStep;; tell TScalerUpdate
        | None => tell TForward;; tell (TBackward false);; tell TOptimizerStep
        end;;
        tell TSchedulerStep : Trace TrainEvent unit) = (t, Ok tt) ∧
       List.filter is_step t = batch_steps scaler ∧ displays t = [].
Proof.
  destruct scaler; eexists; (split; [reflexivity|split; reflexivity]).
Qed.

Lemma displays_cons e t :
  displays (e :: t) =
    match e with TDisplay i ms => (i, ms) :: displays t | _ => displays t end.
Proof. destruct e; reflexivity. Qed.

(** The batches after the first, when none brings a new key. *)
Lemma train_batches_rest pf scaler batches ms pm :
  pf ≠ 0 →
  Forall (λ b, ∀ k, In k (aux_loss_keys b) → In k ms) batches →
  ∀ i,
  snd (train_batches pf scaler i batches (Some ms) pm) = Ok tt ∧
  List.filter is_step (fst (train_batches pf scaler i batches (Some ms) pm)) =
    flat_map (λ _, batch_steps scaler) batches ∧
  displays (fst (train_batches pf scaler i batches (Some ms) pm)) =
    map (λ j, (j, pm))
        (List.filter (λ j, j mod pf =? 0) (range_from i (length batches))).
Proof.
  intros Hpf%Z.eqb_neq. induction 1 as [|b batches Hb _ IH]; intros i.
  - repeat split; reflexivity.
  - destruct (IH (i + 1)) as (IH1 & IH2 & IH3).
    cbn [train_batches length range_from List.filter flat_map].
    rewrite (update_loss_meters_ok _ _ Hb), Hpf.
    destruct scaler as [s|]; trace_unfold; trace_eval;
      (destruct (i mod pf =? 0); trace_eval;
       rewrite ?List.filter_app, ?displays_app, ?filter_is_step_updates, ?displays_updates;
       cbn [List.filter is_step app batch_steps map];
       rewrite ?displays_cons, ?List.filter_app, ?displays_app,
               ?filter_is_step_updates, ?displays_updates;
       cbn [List.filter is_step app batch_steps map];
       rewrite ?displays_cons, IH1, IH2, IH3; repeat split; reflexivity).
Qed.

(** The first batch fixes the loss meters, and the others follow. *)
Lemma train_batches_first pf scaler first rest pm :
  pf ≠ 0 →
  Forall (λ b, ∀ k, In k (aux_loss_keys b) → In k (aux_loss_keys first)) rest →
  snd (train_batches pf scaler 0 (first :: rest) None pm) = Ok tt ∧
  List.filter is_step (fst (train_batches pf scaler 0 (first :: rest) None pm)) =
    flat_map (λ _, batch_steps scaler) (first :: rest) ∧
  displays (fst (train_batches pf scaler 0 (first :: rest) None pm)) =
    map (λ j, (j, pm ++ aux_loss_keys first))
        (List.filter (λ j, j mod pf =? 0) (range_from 0 (S (length rest)))).
Proof.
  intros Hpf Hrest.
  destruct (train_batches_rest pf scaler rest (aux_loss_keys first)
              (pm ++ aux_loss_keys first) Hpf Hrest (0 + 1)) as (R1 & R2 & R3).
  apply Z.eqb_neq in Hpf.
  destruct (new_loss_meters_eval (aux_loss_keys first) [] pm) as (t & E & F1 & F2).
  cbn [app] in E.
  cbn [train_batches length range_from List.filter flat_map].
  rewrite E, Hpf.
  destruct scaler as [s|]; trace_unfold; trace_eval;
    (destruct (0 mod pf =? 0); trace_eval;
     rewrite ?List.filter_app, ?displays_app, ?F1, ?F2;
     cbn [List.filter is_step app batch_steps map];
     rewrite ?displays_cons, ?List.filter_app, ?displays_app, ?F1, ?F2;
     cbn [List.filter is_step app batch_steps map];
     rewrite ?displays_cons, R1, R2, R3; repeat split; reflexivity).
Qed.

Lemma train_eval ns config scaler loader :
  Forall (λ mp, ∃ n k, mp_name mp = Some n ∧ mp_metric mp = Some k ∧
                       name_in k ns = true) (TRAIN_metrics config) →
  ∃ t, List.filter is_step t = [] ∧ displays t = [] ∧
       let body := train_batches (TRAIN_print_freq config) scaler 0 loader None
                                 ["Time"; "Data"] in
       train ns config scaler loader =
         (t ++ fst body ++ match snd body with Ok _ => [TMetricsDisplay] | Raise _ => [] end,
          snd body).
Proof.
  intros Hms.
  destruct (build_metric_dict_ok ns (TRAIN_metrics config) ∅ Hms)
    as (t & d & E & F1 & F2).
  exists (t ++ [TModelTrain]). split; [|split].
  - rewrite List.filter_app, F1. reflexivity.
  - rewrite displays_app, F2. reflexivity.
  - cbn zeta. unfold train. rewrite E. trace_unfold. trace_eval.
    destruct (train_batches _ _ _ _ _ _) as [tb [[]|e]]; cbn [fst snd trace_bind app].
    + rewrite <- List.app_assoc. reflexivity.
    + rewrite app_nil_r, <- List.app_assoc. reflexivity.
Qed.

(** X11. When [train] runs to its end, every batch has had exactly one
    step of the optimizer followed by one step of the scheduler: through
    the scaler ([scaler.step], [scaler.update]) when there is one and never
    directly, directly ([optimizer.step]) when there is none and never
    through a scaler.  So the scheduler is stepped once per batch of the
    loader. *)
Theorem train_steps ns config scaler loader :
  train_ok ns config loader →
  snd (train ns config scaler loader) = Ok tt ∧
  List.filter is_step (fst (train ns config scaler loader)) =
    flat_map (λ _, batch_steps scaler) loader.
Proof.
  intros (Hms & Hpf & Hkeys).
  destruct (train_eval ns config scaler loader Hms) as (t & F1 & _ & E).
  cbn zeta in E. rewrite E. cbn [fst snd].
  destruct loader as [|first rest].
  - cbn. rewrite List.filter_app, F1. split; reflexivity.
  - destruct (train_batches_first (TRAIN_print_freq config) scaler first rest
                ["Time"; "Data"] Hpf Hkeys) as (R1 & R2 & _).
    rewrite R1. split; [reflexivity|].
    rewrite !List.filter_app, F1, R2. cbn [List.filter is_step app].
    rewrite app_nil_r. reflexivity.
Qed.

(** X12. When [train] runs to its end, the progress line is displayed at
    the batches whose number [print_freq] divides, batch 0 among them, and
    every line lists the meters [Time] and [Data] followed by the loss
    meters of the keys of the first batch. *)
Theorem train_displays ns config scaler loader :
  train_ok ns config loader →
  displays (fst (train ns config scaler loader)) =
    map (λ j, (j, ["Time"; "Data"] ++ first_keys loader))
        (List.filter (λ j, j mod TRAIN_print_freq config =? 0)
                     (range_from 0 (length loader))).
Proof.
  intros (Hms & Hpf & Hkeys).
  destruct (train_eval ns config scaler loader Hms) as (t & _ & F2 & E).
  cbn zeta in E. rewrite E. cbn [fst snd].
  destruct loader as [|first rest].
  - cbn. rewrite displays_app, F2. reflexivity.
  - destruct (train_batches_first (TRAIN_print_freq config) scaler first rest
                ["Time"; "Data"] Hpf Hkeys) as (R1 & _ & R3).
    rewrite R1, !displays_app, F2, R3. cbn [first_keys length displays omap app].
    rewrite app_nil_r. reflexivity.
Qed.

(** X13. With [print_freq = 0], [train] on a loader with a batch stops with
    a [ZeroDivisionError] at the end of the first batch, after the
    optimizer and the scheduler have been stepped for it; on an empty
    loader it runs to its end. *)
Theorem train_print_freq_zero ns config scaler :
  Forall (λ mp, ∃ n k, mp_name mp = Some n ∧ mp_metric mp = Some k ∧
                       name_in k ns = true) (TRAIN_metrics config) →
  TRAIN_print_freq config = 0 →
  snd (train ns config scaler []) = Ok tt ∧
  ∀ first rest,
    snd (train ns config scaler (first :: rest)) = Raise ZeroDivisionError ∧
    List.filter is_step (fst (train ns config scaler (first :: rest))) =
      batch_steps scaler ∧
    displays (fst (train ns config scaler (first :: rest))) = [].
Proof.
  intros Hms Hpf. split.
  - destruct (train_eval ns config scaler [] Hms) as (t & _ & _ & E).
    cbn zeta in E. rewrite E. reflexivity.
  - intros first rest.
    destruct (train_eval ns config scaler (first :: rest) Hms) as (t & F1 & F2 & E).
    cbn zeta in E. rewrite E. cbn [fst snd].
    destruct (new_loss_meters_eval (aux_loss_keys first) [] ["Time"; "Data"])
      as (tn & En & G1 & G2).
    cbn [train_batches]. rewrite En, Hpf. cbn [Z.eqb].
    destruct scaler as [s|]; trace_unfold; trace_eval;
      rewrite !app_nil_r;
      rewrite ?List.filter_app, ?displays_app, ?F1, ?F2;
      cbn [List.filter is_step app batch_steps];
      rewrite ?displays_cons, ?List.filter_app, ?displays_app, ?G1, ?G2;
      repeat split; reflexivity.
Qed.

(** A batch that brings a key without a meter stops the loop. *)
Lemma train_batches_new_key pf scaler pre b post ms pm good k more :
  pf ≠ 0 →
  Forall (λ b, ∀ x, In x (aux_loss_keys b) → In x ms) pre →
  aux_loss_keys b = good ++ k :: more →
  (∀ x, In x good → In x ms) → ¬ In k ms →
  ∀ i,
  snd (train_batches pf scaler i (pre ++ b :: post) (Some ms) pm) =
    Raise (KeyError k) ∧
  List.filter is_step (fst (train_batches pf scaler i (pre ++ b :: post) (Some ms) pm)) =
    flat_map (λ _, batch_steps scaler) (pre ++ [b]).
Proof.
  intros Hpf%Z.eqb_neq Hpre Hb Hgood Hk.
  induction Hpre as [|p pre Hp _ IH]; intros i.
  - cbn [app train_batches flat_map].
    rewrite Hb, (update_loss_meters_fail good k more ms Hgood Hk).
    destruct scaler as [s|]; trace_unfold; trace_eval;
      rewrite ?app_nil_r, ?List.filter_app, ?filter_is_step_updates;
      cbn [List.filter is_step app batch_steps];
      rewrite ?filter_is_step_updates; split; reflexivity.
  - destruct (IH (i + 1)) as (IH1 & IH2).
    cbn [app train_batches flat_map].
    rewrite (update_loss_meters_ok _ _ Hp), Hpf.
    destruct scaler as [s|]; trace_unfold; trace_eval;
      (destruct (i mod pf =? 0); trace_eval;
       rewrite ?List.filter_app, ?filter_is_step_updates;
       cbn [List.filter is_step app batch_steps];
       rewrite ?List.filter_app, ?filter_is_step_updates;
       cbn [List.filter is_step app batch_steps];
       rewrite IH1, IH2; split; reflexivity).
Qed.

(** X14. The loss meters are those of the first batch only: when a later
    batch is the first to bring an [aux_loss] key that the first batch did
    not have, [train] stops there with a [KeyError] for that key, after
    the optimizer and the scheduler have been stepped for that batch too. *)
Theorem train_new_loss_key ns config scaler first pre b post good k more :
  Forall (λ mp, ∃ n m, mp_name mp = Some n ∧ mp_metric mp = Some m ∧
                       name_in m ns = true) (TRAIN_metrics config) →
  TRAIN_print_freq config ≠ 0 →
  Forall (λ b, ∀ x, In x (aux_loss_keys b) → In x (aux_loss_keys first)) pre →
  aux_loss_keys b = good ++ k :: more →
  (∀ x, In x good → In x (aux_loss_keys first)) → ¬ In k (aux_loss_keys first) →
  snd (train ns config scaler (first :: pre ++ b :: post)) = Raise (KeyError k) ∧
  List.filter is_step (fst (train ns config scaler (first :: pre ++ b :: post))) =
    flat_map (λ _, batch_steps scaler) (first :: pre ++ [b]).
Proof.
  intros Hms Hpf Hpre Hb Hgood Hk.
  destruct (train_eval ns config scaler (first :: pre ++ b :: post) Hms)
    as (t & F1 & _ & E).
  cbn zeta in E. rewrite E. cbn [fst snd]. clear E.
  destruct (train_batches_new_key (TRAIN_print_freq config) scaler pre b post
              (aux_loss_keys first) (["Time"; "Data"] ++ aux_loss_keys first)
              good k more Hpf Hpre Hb Hgood Hk (0 + 1)) as (R1 & R2).
  destruct (new_loss_meters_eval (aux_loss_keys first) [] ["Time"; "Data"])
    as (tn & En & G1 & G2).
  cbn [app] in R1, R2, En.
  apply Z.eqb_neq in Hpf.
  cbn [train_batches flat_map]. rewrite En, Hpf.
  destruct scaler as [s|]; trace_unfold; trace_eval;
    (destruct (0 mod TRAIN_print_freq config =? 0); trace_eval;
     rewrite R1; cbn [app];
     rewrite ?app_nil_r, ?List.filter_app, ?F1, ?G1;
     cbn [List.filter is_step app batch_steps];
     rewrite ?List.filter_app, ?G1;
     cbn [List.filter is_step app batch_steps];
     rewrite ?R2; split; reflexivity).
Qed.

Ltac solve_metrics_ok :=
  repeat (apply List.Forall_cons;
          [eexists _, _;
           (split; [reflexivity|split; [reflexivity|vm_compute; reflexivity]])|]);
  apply List.Forall_nil.

Ltac solve_keys_ok :=
  repeat (apply List.Forall_cons; [simpl; intros ?; tauto|]); apply List.Forall_nil.

(** [ex_loader] with [print_freq = 2] and without a scaler. *)
Lemma train_steps_witness :
  train_ok ["IoU"] ex_train_config ex_loader ∧
  snd (train ["IoU"] ex_train_config None ex_loader) = Ok tt ∧
  List.filter is_step (fst (train ["IoU"] ex_train_config None ex_loader)) =
    [TOptimizerStep; TSchedulerStep; TOptimizerStep; TSchedulerStep;
     TOptimizerStep; TSchedulerStep].
Proof.
  assert (H : train_ok ["IoU"] ex_train_config ex_loader).
  { split; [solve_metrics_ok|]. split; [discriminate|].
    solve_keys_ok. }
  split; [exact H|].
  exact (train_steps ["IoU"] ex_train_config None ex_loader H).
Defined.

Lemma train_displays_witness :
  train_ok ["IoU"] ex_train_config ex_loader ∧
  displays (fst (train ["IoU"] ex_train_config None ex_loader)) =
    [(0, ["Time"; "Data"; "ce"; "l1"]); (2, ["Time"; "Data"; "ce"; "l1"])].
Proof.
  assert (H : train_ok ["IoU"] ex_train_config ex_loader).
  { split; [solve_metrics_ok|]. split; [discriminate|].
    solve_keys_ok. }
  split; [exact H|].
  exact (train_displays ["IoU"] ex_train_config None ex_loader H).
Defined.

Lemma train_print_freq_zero_witness :
  TRAIN_print_freq (mkTrainConfig [] 0) = 0 ∧
  snd (train [] (mkTrainConfig [] 0) None ex_loader) = Raise ZeroDivisionError.
Proof.
  split; [reflexivity|].
  exact (proj1 (proj2 (train_print_freq_zero [] (mkTrainConfig [] 0) None
                         (List.Forall_nil _) eq_refl)
                      (mkBatch ["ce"; "l1"]) [mkBatch ["ce"]; mkBatch ["l1"; "ce"]])).
Defined.

Lemma train_new_loss_key_witness :
  ¬ In "dice" ["ce"] ∧
  snd (train ["IoU"] ex_train_config None
         [mkBatch ["ce"]; mkBatch ["ce"]; mkBatch ["ce"; "dice"]; mkBatch ["ce"]]) =
    Raise (KeyError "dice").
Proof.
  assert (Hk : ¬ In "dice" ["ce"]).
  { simpl. intros [H|[]]. discriminate. }
  split; [exact Hk|].
  refine (proj1 (train_new_loss_key ["IoU"] ex_train_config None
                   (mkBatch ["ce"]) [mkBatch ["ce"]] (mkBatch ["ce"; "dice"])
                   [mkBatch ["ce"]] ["ce"] "dice" [] _ _ _ eq_refl _ Hk)).
  - solve_metrics_ok.
  - discriminate.
  - solve_keys_ok.
  - simpl; intros ?; tauto.
Defined.

(** ** The progress line *)

Lemma length_spaces n : String.length (spaces n) = n.
Proof. induction n as [|n IH]; [reflexivity|]. cbn. rewrite IH. reflexivity. Qed.

Lemma pretty_N_go_length_ge x : ∀ s,
  (String.length s ≤ String.length (pretty_N_go x s))%nat.
Proof.
  induction (N.lt_wf_0 x) as [x _ IH]; intros s.
  assert (x = 0 ∨ 0 < x)%N as [->|Hx] by lia; [rewrite pretty_N_go_0; lia|].
  rewrite pretty_N_go_step by exact Hx.
  etrans; [|apply IH, N.div_lt; [exact Hx|reflexivity]]. cbn. lia.
Qed.

(** A smaller number has no more digits. *)
Lemma pretty_N_go_length_mono y : ∀ x s s',
  (x ≤ y)%N → String.length s = String.length s' →
  (String.length (pretty_N_go x s) ≤ String.length (pretty_N_go y s'))%nat.
Proof.
  induction (N.lt_wf_0 y) as [y _ IH]; intros x s s' Hxy Hlen.
  assert (x = 0 ∨ 0 < x)%N as [->|Hx] by lia.
  - rewrite pretty_N_go_0, Hlen. apply pretty_N_go_length_ge.
  - assert (Hy : (0 < y)%N) by lia.
    rewrite (pretty_N_go_step x), (pretty_N_go_step y) by assumption.
    apply IH.
    + apply N.div_lt; [exact Hy|reflexivity].
    + apply N.Div0.div_le_mono. exact Hxy.
    + cbn. rewrite Hlen. reflexivity.
Qed.

Lemma str_int_pos p : str_int (Z.pos p) = pretty_N_go (N.pos p) "".
Proof.
  change (str_int (Z.pos p)) with (pretty_N (N.pos p)). unfold pretty_N.
  destruct (decide (N.pos p = 0%N)); [discriminate|reflexivity].
Qed.

Lemma str_int_length_mono x y :
  0 ≤ x ≤ y → (String.length (str_int x) ≤ String.length (str_int y))%nat.
Proof.
  intros [H0 Hxy].
  destruct x as [|p|p]; [|destruct y as [|q|q]; try lia|lia].
  - destruct y as [|q|q]; [lia| |lia].
    rewrite str_int_pos.
    pose proof (pretty_N_go_length_mono (N.pos q) 1 "" "" ltac:(lia) eq_refl) as H.
    rewrite (pretty_N_go_step 1) in H by lia.
    change (String.length (str_int 0)) with 1%nat.
    etrans; [|exact H].
    change (1 `div` 10)%N with 0%N. rewrite pretty_N_go_0. cbn. lia.
  - rewrite !str_int_pos. apply pretty_N_go_length_mono; [lia|reflexivity].
Qed.

Lemma format_d_length width n :
  (String.length (str_int n) ≤ width)%nat → String.length (format_d width n) = width.
Proof.
  intros H. unfold format_d. rewrite length_app, length_spaces. lia.
Qed.

Lemma format_d_exact n : format_d (String.length (str_int n)) n = str_int n.
Proof. unfold format_d. rewrite Nat.sub_diag. reflexivity. Qed.

(** X15. The counter of the progress line has a fixed width: for every
    batch number from 0 to [num_batches] the formatted text is
    [[<batch>/<num_batches>]] with the batch number padded on the left to
    the number of digits of [num_batches], so its length is twice that
    number of digits plus three and the lines of an epoch are aligned. *)
Theorem batch_fmtstr_fixed_width (num_batches batch : Z) :
  0 ≤ batch ≤ num_batches →
  let digits := String.length (str_int num_batches) in
  fmt_format (_get_batch_fmtstr num_batches) batch =
    "[" +:+ spaces (digits - String.length (str_int batch)) +:+ str_int batch +:+
    "/" +:+ str_int num_batches +:+ "]" ∧
  String.length (fmt_format (_get_batch_fmtstr num_batches) batch) =
    (2 * digits + 3)%nat.
Proof.
  intros Hb digits.
  assert (E : fmt_format (_get_batch_fmtstr num_batches) batch =
              "[" +:+ format_d digits batch +:+ "/" +:+ str_int num_batches +:+ "]").
  { unfold fmt_format, _get_batch_fmtstr. cbn [fmt_before fmt_width fmt_after].
    rewrite Z.div_1_r. fold digits. unfold digits at 2.
    rewrite format_d_exact. reflexivity. }
  split.
  - rewrite E. unfold format_d. rewrite app_assoc. reflexivity.
  - rewrite E. rewrite !length_app.
    rewrite (format_d_length digits batch (str_int_length_mono _ _ Hb)).
    fold digits. cbn [String.length]. lia.
Qed.

(** Batch 7 of 120. *)
Lemma batch_fmtstr_fixed_width_witness :
  0 ≤ 7 ≤ 120 ∧ fmt_format (_get_batch_fmtstr 120) 7 = "[  7/120]".
Proof.
  split; [lia|].
  rewrite (proj1 (batch_fmtstr_fixed_width 120 7 ltac:(lia))). vm_compute. reflexivity.
Defined.

(** ** The engine across a sequence of invocations *)

Lemma must_build_key st a :
  must_build st a ↔ engine_key st ≠ Some (build_key a).
Proof.
  unfold must_build, engine_key, build_key. destruct (engine st) as [e|].
  - split.
    + intros [H|(e' & [= <-] & Hd)]; [discriminate|].
      intros [= H1 H2]. destruct Hd; contradiction.
    + intros H. right. exists e. split; [reflexivity|].
      destruct (decide (built_config e = arg_model_config a)) as [E1|]; [|auto].
      destruct (decide (built_use_gpu e = arg_use_gpu a)) as [E2|]; [|auto].
      destruct H. congruence.
  - split; [discriminate|auto].
Qed.

(** After an invocation the engine is one for the key of the invocation,
    with the parameters of the invocation. *)
Lemma widget_engine_after st a :
  cache_coherent st →
  ∃ e, engine (widget st a) = Some e ∧
       built_config e = arg_model_config a ∧ built_use_gpu e = arg_use_gpu a ∧
       engine_params e = args_params a ∧
       engines_built (widget st a) =
         ((if bool_decide (engine_key st = Some (build_key a)) then 0 else 1) +
          engines_built st)%nat.
Proof.
  intros Hst. destruct (widget_step st a Hst) as [[Hb ->]|(Hnb & e & He & ->)].
  - eexists. split; [reflexivity|]. cbn. repeat split.
    apply must_build_key in Hb. rewrite bool_decide_eq_false_2 by exact Hb.
    reflexivity.
  - exists (update_params e (args_params a)). split; [reflexivity|].
    assert (Hk : engine_key st = Some (build_key a)).
    { destruct (decide (engine_key st = Some (build_key a))) as [E|E]; [exact E|].
      destruct Hnb. apply must_build_key, E. }
    unfold engine_key in Hk. rewrite He in Hk. injection Hk as H1 H2.
    cbn. repeat split; try assumption.
    rewrite bool_decide_eq_true_2; [reflexivity|].
    unfold engine_key. rewrite He. unfold build_key. congruence.
Qed.

Lemma widget_foldl_built calls : ∀ st,
  cache_coherent st →
  engines_built (foldl widget st calls) =
    (engines_built st + key_changes (engine_key st) calls)%nat.
Proof.
  induction calls as [|a calls IH]; intros st Hst; cbn [foldl key_changes].
  - lia.
  - rewrite (IH _ (widget_coherent st a Hst)).
    destruct (widget_engine_after st a Hst) as (e & He & H1 & H2 & _ & Hn).
    assert (Hk : engine_key (widget st a) = Some (build_key a)).
    { unfold engine_key, build_key. rewrite He, H1, H2. reflexivity. }
    rewrite Hk, Hn. lia.
Qed.

Lemma key_changes_same k calls :
  Forall (λ a, build_key a = k) calls → key_changes (Some k) calls = 0%nat.
Proof.
  induction 1 as [|a calls Ha _ IH]; [reflexivity|].
  cbn [key_changes]. rewrite Ha, bool_decide_eq_true_2 by reflexivity. exact IH.
Qed.

(** X16. Over a sequence of invocations the number of engines constructed
    is the number of invocations whose configuration or GPU flag differs
    from the invocation before, the first one counted; a nonempty sequence
    of invocations with one configuration and one GPU flag constructs a
    single engine, whatever the other arguments. *)
Theorem widget_engines_built (calls : list WidgetArgs) :
  engines_built (widget_run calls) = key_changes None calls ∧
  (∀ k, calls ≠ [] → Forall (λ a, build_key a = k) calls →
        engines_built (widget_run calls) = 1%nat).
Proof.
  assert (H : engines_built (widget_run calls) = key_changes None calls).
  { unfold widget_run. rewrite widget_foldl_built; [reflexivity|]. left. auto. }
  split; [exact H|]. intros k Hne Hall. rewrite H.
  destruct calls as [|a calls]; [congruence|].
  apply Forall_cons in Hall as [Ha Hall].
  cbn [key_changes]. rewrite bool_decide_eq_false_2 by discriminate.
  rewrite Ha, (key_changes_same k calls Hall). reflexivity.
Qed.


(** ** The slice under the cursor *)

Lemma delete_insert_at {A} (i : nat) (x : A) l :
  (i ≤ length l)%nat → delete i (insert_at i x l) = l.
Proof.
  revert l. induction i as [|i IH]; intros l Hi.
  - reflexivity.
  - destruct l as [|y l]; [simpl in Hi; lia|].
    unfold insert_at in *. cbn. rewrite IH by (simpl in Hi; lia). reflexivity.
Qed.

Lemma insert_at_delete {A} (i : nat) (x : A) l :
  (i < length l)%nat → insert_at i x (delete i l) = <[i := x]> l.
Proof.
  revert l. induction i as [|i IH]; intros l Hi.
  - destruct l; [simpl in Hi; lia|reflexivity].
  - destruct l as [|y l]; [simpl in Hi; lia|].
    unfold insert_at in *. cbn. rewrite IH by (simpl in Hi; lia). reflexivity.
Qed.

Lemma get_current_slice_3d axis data_pos data image x n :
  data = SingleScale image ∨ (∃ others, data = MultiScale (image :: others)) →
  ndim image = 3%nat → (axis < 3)%nat →
  data_pos !! axis = Some x → shape image !! axis = Some n →
  _get_current_slice axis data_pos data =
    match index_axis image axis (int_of x) with
    | Fails e => Fails e
    | Got image2d => Got (image2d, Some axis, Some (int_of x))
    end.
Proof.
  intros Hdata Hnd Hax Hpos Hn. unfold _get_current_slice.
  assert (E : match data with
              | SingleScale image => Got image
              | MultiScale levels =>
                  match levels with
                  | image :: _ => Got image
                  | [] => Fails (IndexError "list index out of range")
                  end
              end = Got image).
  { destruct Hdata as [->|[others ->]]; reflexivity. }
  rewrite E, Hnd, Hpos. cbn [Nat.eqb].
  rewrite (proj2 (Nat.leb_gt 3 axis) Hax). reflexivity.
Qed.

Lemma show_test_result_3d seg axis plane :
  ndim seg = 2%nat → (axis < 3)%nat →
  _show_test_result (seg, Some axis, Some plane) =
    Got (mkLabels (mkNdArray (insert_at axis 1%nat (shape seg))
                             (λ idx, at_index seg (delete axis idx)))
                  (<[axis := plane]> [0; 0; 0])).
Proof.
  intros Hnd Hax. unfold _show_test_result, expand_dims. rewrite Hnd.
  rewrite (proj2 (Nat.leb_le axis 2)) by lia.
  rewrite (proj2 (Nat.leb_gt 3 axis) Hax). reflexivity.
Qed.

Lemma shown_at_plane axis plane i j :
  (axis < 3)%nat →
  shown_at (<[axis := plane]> [0; 0; 0]) (insert_at axis 0%nat [i; j]) =
    insert_at axis plane [Z.of_nat i; Z.of_nat j].
Proof.
  intros Hax. destruct axis as [|[|[|axis]]]; [| | |lia];
    unfold shown_at, insert_at; cbn; rewrite ?Z.add_0_r; reflexivity.
Qed.

(** X18. For a three-dimensional image (the highest resolution level of a
    multiscale one) and a cursor inside it along the viewed axis, the slice
    handed to the engine is the plane [int(coordinate)] of that axis, and
    the segmentation of that slice comes back as a one-plane volume of the
    shape of the image with 1 at the viewed axis, every pixel of it shown
    at the position of the image element that it was computed from. *)
Theorem slice_then_show axis data_pos data image x n :
  data = SingleScale image ∨ (∃ others, data = MultiScale (image :: others)) →
  ndim image = 3%nat → (axis < 3)%nat →
  data_pos !! axis = Some x → shape image !! axis = Some n →
  0 ≤ int_of x < Z.of_nat n →
  ∃ image2d,
    _get_current_slice axis data_pos data =
      Got (image2d, Some axis, Some (int_of x)) ∧
    shape image2d = delete axis (shape image) ∧
    (∀ idx, at_index image2d idx =
            at_index image (insert_at axis (Z.to_nat (int_of x)) idx)) ∧
    ∀ seg, shape seg = shape image2d →
      ∃ labels,
        _show_test_result (seg, Some axis, Some (int_of x)) = Got labels ∧
        shape (labels_data labels) = <[axis := 1%nat]> (shape image) ∧
        ∀ i j,
          at_index (labels_data labels) (insert_at axis 0%nat [i; j]) =
            at_index seg [i; j] ∧
          shown_at (translate labels) (insert_at axis 0%nat [i; j]) =
            map Z.of_nat (insert_at axis (Z.to_nat (int_of x)) [i; j]).
Proof.
  intros Hdata Hnd Hax Hpos Hn Hplane.
  rewrite (get_current_slice_3d axis data_pos data image x n Hdata Hnd Hax Hpos Hn).
  unfold index_axis. rewrite Hn.
  rewrite (proj2 (Z.leb_le 0 (int_of x))), (proj2 (Z.ltb_lt (int_of x) (Z.of_nat n)))
    by lia.
  cbn [andb]. eexists. split; [reflexivity|]. cbn [shape at_index].
  split; [reflexivity|]. split; [reflexivity|].
  intros seg Hseg.
  assert (Hnd2 : ndim seg = 2%nat).
  { unfold ndim in *. rewrite Hseg, length_delete by (rewrite Hn; eauto).
    rewrite Hnd. reflexivity. }
  rewrite (show_test_result_3d seg axis (int_of x) Hnd2 Hax).
  eexists. split; [reflexivity|]. cbn [labels_data translate shape at_index].
  split.
  - rewrite Hseg. apply insert_at_delete. unfold ndim in Hnd. lia.
  - intros i j. split.
    + rewrite delete_insert_at by (simpl; lia). reflexivity.
    + rewrite (shown_at_plane axis (int_of x) i j Hax).
      destruct axis as [|[|[|axis]]]; [| | |lia];
        unfold insert_at; cbn; rewrite Z2Nat.id by lia; reflexivity.
Qed.

(** X19. A cursor before the start of the image along the viewed axis
    gives a negative plane: down to minus the extent of the axis no error
    is raised, the slice handed to the engine is counted from the end of
    the axis, and the segmentation is added at the negative plane, which is
    not where that slice lies. *)
Theorem slice_negative_plane axis data_pos data image x n :
  data = SingleScale image ∨ (∃ others, data = MultiScale (image :: others)) →
  ndim image = 3%nat → (axis < 3)%nat →
  data_pos !! axis = Some x → shape image !! axis = Some n →
  - Z.of_nat n ≤ int_of x < 0 →
  ∃ image2d,
    _get_current_slice axis data_pos data =
      Got (image2d, Some axis, Some (int_of x)) ∧
    (∀ idx, at_index image2d idx =
            at_index image (insert_at axis (Z.to_nat (int_of x + Z.of_nat n)) idx)) ∧
    ∀ seg, shape seg = shape image2d →
      ∃ labels,
        _show_test_result (seg, Some axis, Some (int_of x)) = Got labels ∧
        translate labels !! axis = Some (int_of x) ∧
        ∀ i j,
          shown_at (translate labels) (insert_at axis 0%nat [i; j]) ≠
            map Z.of_nat (insert_at axis (Z.to_nat (int_of x + Z.of_nat n)) [i; j]).
Proof.
  intros Hdata Hnd Hax Hpos Hn Hplane.
  rewrite (get_current_slice_3d axis data_pos data image x n Hdata Hnd Hax Hpos Hn).
  unfold index_axis. rewrite Hn.
  rewrite (proj2 (Z.leb_gt 0 (int_of x))) by lia. cbn [andb].
  rewrite (proj2 (Z.leb_le (- Z.of_nat n) (int_of x))), (proj2 (Z.ltb_lt (int_of x) 0))
    by lia.
  cbn [andb]. eexists. split; [reflexivity|]. cbn [shape at_index].
  split; [reflexivity|].
  intros seg Hseg.
  assert (Hnd2 : ndim seg = 2%nat).
  { unfold ndim in *. rewrite Hseg, length_delete by (rewrite Hn; eauto).
    rewrite Hnd. reflexivity. }
  rewrite (show_test_result_3d seg axis (int_of x) Hnd2 Hax).
  eexists. split; [reflexivity|]. cbn [labels_data translate].
  split.
  - apply list_lookup_insert_eq. simpl. lia.
  - intros i j. rewrite (shown_at_plane axis (int_of x) i j Hax).
    destruct axis as [|[|[|axis]]]; [| | |lia];
      unfold insert_at; cbn; intros [=]; lia.
Qed.

(** X20. An image that is not three-dimensional is handed to the engine
    whole, whatever the viewed axis and the cursor, with neither axis nor
    plane, and its segmentation is added as it is with a translation of
    two zeros: so for a two-dimensional image, and also for one of four or
    more dimensions. *)
Theorem slice_not_3d axis data_pos data image :
  data = SingleScale image ∨ (∃ others, data = MultiScale (image :: others)) →
  ndim image ≠ 3%nat → (2 ≤ ndim image)%nat →
  _get_current_slice axis data_pos data = Got (image, None, None) ∧
  ∀ seg, _show_test_result (seg, None, None) = Got (mkLabels seg [0; 0]).
Proof.
  intros Hdata Hnd Hnd2. split; [|reflexivity].
  unfold _get_current_slice.
  assert (E : match data with
              | SingleScale image => Got image
              | MultiScale levels =>
                  match levels with
                  | image :: _ => Got image
                  | [] => Fails (IndexError "list index out of range")
                  end
              end = Got image).
  { destruct Hdata as [->|[others ->]]; reflexivity. }
  rewrite E. rewrite (proj2 (Nat.eqb_neq _ _) Hnd).
  rewrite (proj2 (Nat.ltb_ge _ _) Hnd2). reflexivity.
Qed.

(** Plane 2 of axis 1 of [ex_image], the cursor at 2.5. *)
Lemma slice_then_show_witness :
  ndim ex_image = 3%nat ∧ (1 < 3)%nat ∧ 0 ≤ int_of (5 # 2) < 5 ∧
  ∃ image2d,
    _get_current_slice 1 [0; 5 # 2; 0]%Q (SingleScale ex_image) =
      Got (image2d, Some 1%nat, Some 2) ∧
    shape image2d = [4; 6]%nat.
Proof.
  split; [reflexivity|]. split; [lia|].
  assert (H : 0 ≤ int_of (5 # 2) < Z.of_nat 5) by (vm_compute; split; discriminate || reflexivity).
  split; [exact H|].
  destruct (slice_then_show 1 [0; 5 # 2; 0]%Q (SingleScale ex_image) ex_image (5 # 2) 5
              (or_introl eq_refl) eq_refl ltac:(lia) eq_refl eq_refl H)
    as (image2d & E & Hs & _).
  exists image2d. split; [exact E|exact Hs].
Defined.

(** The cursor at -1.5 along axis 0 of [ex_image]. *)
Lemma slice_negative_plane_witness :
  - Z.of_nat 4 ≤ int_of (-3 # 2) < 0 ∧
  ∃ image2d,
    _get_current_slice 0 [-3 # 2; 0; 0]%Q (SingleScale ex_image) =
      Got (image2d, Some 0%nat, Some (-1)) ∧
    at_index image2d [1; 2]%nat = at_index ex_image [3; 1; 2]%nat.
Proof.
  assert (H : - Z.of_nat 4 ≤ int_of (-3 # 2) < 0)
    by (vm_compute; split; discriminate || reflexivity).
  split; [exact H|].
  destruct (slice_negative_plane 0 [-3 # 2; 0; 0]%Q (SingleScale ex_image) ex_image
              (-3 # 2) 4 (or_introl eq_refl) eq_refl ltac:(lia) eq_refl eq_refl H)
    as (image2d & E & Hat & _).
  exists image2d. split; [exact E|]. rewrite Hat. reflexivity.
Defined.

(** A two-dimensional image. *)
Lemma slice_not_3d_witness :
  ndim (mkNdArray [7; 9]%nat (λ _, 0)) ≠ 3%nat ∧
  _get_current_slice 0 [] (SingleScale (mkNdArray [7; 9]%nat (λ _, 0))) =
    Got (mkNdArray [7; 9]%nat (λ _, 0), None, None).
Proof.
  assert (H : ndim (mkNdArray [7; 9]%nat (λ _, 0)) ≠ 3%nat) by discriminate.
  split; [exact H|].
  exact (proj1 (slice_not_3d 0 [] (SingleScale (mkNdArray [7; 9]%nat (λ _, 0)))
                  (mkNdArray [7; 9]%nat (λ _, 0)) (or_introl eq_refl) H
                  (le_n 2))).
Defined.
